(** * Conditional sum-product networks: parameter injection and facade

    A shallow embedding of [cspn.py] (the primary CSPN, class [CSPN] on top of
    [RatSpn]) and of the layerwise variant
    [src/spn/experiments/RandomSPNs_layerwise/cspn.py].

    Conventions of the embedding.
    - A tensor is its shape together with its indexing function; tensor
      values are real numbers, the exact arithmetic that torch's floats
      approximate.  Rounding, overflow and device placement are not modelled.
    - A Python exception is a value [Raise e] of the result type [Res]; an
      [assert] that fails raises [AssertionError].  A call that raises leaves
      no state behind.
    - The base circuit ([RatSpn], [Sum], [CrossProduct], the leaf) is not part
      of the sources: its objects are records holding exactly the attributes
      that [cspn.py] reads and writes, and its [forward] and [sample] are
      variables of the section that embeds the facade. *)

From Stdlib Require Import Reals Lra Lia String ZArith.
From stdpp Require Import base list option strings gmap.

(** ** Exceptions *)

Inductive Exn :=
  | AssertionError | AttributeError | IndexError | RuntimeError
  | ZeroDivisionError.

Inductive Res (A : Type) :=
  | Ok (a : A)
  | Raise (e : Exn).
Arguments Ok {A} a.
Arguments Raise {A} e.

#[global] Instance Res_ret : MRet Res := fun A a => Ok a.
#[global] Instance Res_bind : MBind Res := fun A B f m =>
  match m with Ok a => f a | Raise e => Raise e end.

(** [assert b] *)
Definition assert (b : bool) : Res unit :=
  if b then Ok tt else Raise AssertionError.

(** ** Tensors *)

Record Tensor := mkTensor {
  shape : list nat;
  entry : list nat -> R
}.

Definition prod_dims (sh : list nat) : nat := foldr Nat.mul 1%nat sh.

(** [t.numel()] *)
Definition numel (t : Tensor) : nat := prod_dims (shape t).

(** [t.dim()] *)
Definition dim (t : Tensor) : nat := length (shape t).

(** [t.shape[i]]; indexing past the rank raises [IndexError]. *)
Definition shape_at (t : Tensor) (i : nat) : Res nat :=
  match shape t !! i with
  | Some n => Ok n
  | None => Raise IndexError
  end.

(** [th.zeros(sh)], [th.ones(sh)], [th.zeros_like(t)] *)
Definition zeros (sh : list nat) : Tensor := mkTensor sh (fun _ => 0%R).
Definition ones (sh : list nat) : Tensor := mkTensor sh (fun _ => 1%R).
Definition zeros_like (t : Tensor) : Tensor := zeros (shape t).

(** Element-wise application, the shape is kept. *)
Definition tmap (f : R -> R) (t : Tensor) : Tensor :=
  mkTensor (shape t) (fun idx => f (entry t idx)).

(** [t.mul_(v)] and [t.log_()] *)
Definition mul_ (t : Tensor) (v : R) : Tensor := tmap (fun a => (a * v)%R) t.
Definition log_ (t : Tensor) : Tensor := tmap ln t.

(** Row-major position of a multi-index, and its inverse. *)
Fixpoint ravel (sh idx : list nat) : nat :=
  match sh, idx with
  | _ :: ds, i :: js => i * prod_dims ds + ravel ds js
  | _, _ => 0
  end.

Fixpoint unravel (sh : list nat) (k : nat) : list nat :=
  match sh with
  | [] => []
  | _ :: ds => k / prod_dims ds :: unravel ds (k mod prod_dims ds)
  end.

(** [t.view(sh)]: the same elements in row-major order under a new shape;
    torch raises a [RuntimeError] when the element counts differ. *)
Definition view (t : Tensor) (sh : list nat) : Res Tensor :=
  if numel t =? prod_dims sh
  then Ok (mkTensor sh (fun idx => entry t (unravel (shape t) (ravel sh idx))))
  else Raise RuntimeError.

(** [t.flatten(start_dim=1)]: needs at least two dimensions. *)
Definition flatten1 (t : Tensor) : Res Tensor :=
  match shape t with
  | n :: (_ :: _) as rest =>
      Ok (mkTensor [n; prod_dims rest]
            (fun idx => entry t (hd 0%nat idx :: unravel rest (nth 1 idx 0%nat))))
  | _ => Raise IndexError
  end.

(** [t.unsqueeze(0)] *)
Definition unsqueeze0 (t : Tensor) : Tensor :=
  mkTensor (1%nat :: shape t) (fun idx => entry t (tl idx)).

(** Sum of [f 0 .. f (n-1)]. *)
Fixpoint Rsum (n : nat) (f : nat -> R) : R :=
  match n with
  | O => 0%R
  | S m => (Rsum m f + f m)%R
  end.

(** [F.log_softmax(t, dim=d)]:
    [out[idx] = t[idx] - log (sum_c exp t[idx with c at axis d])]. *)
Definition log_softmax (t : Tensor) (d : nat) : Res Tensor :=
  match shape t !! d with
  | Some n =>
      Ok (mkTensor (shape t)
            (fun idx =>
               (entry t idx - ln (Rsum n (fun c => exp (entry t (<[d:=c]> idx)))))%R))
  | None => Raise IndexError
  end.

(** Broadcasting of a tensor to a larger shape of the same rank: an axis of
    size 1 is read at position 0 whatever the index. *)
Definition broadcast_index (sh idx : list nat) : list nat :=
  zip_with (fun d i => if d =? 1 then 0%nat else i) sh idx.

Definition expand (t : Tensor) (sh : list nat) : Tensor :=
  mkTensor sh (fun idx => entry t (broadcast_index (shape t) idx)).

(** ** Feed-forward building blocks ([torch.nn]) *)

(** [nn.Linear(in_f, out_f)]: [y[.., k] = sum_j x[.., j] * weight[k][j] + bias[k]]. *)
Record Linear := mkLinear {
  in_f : nat;
  out_f : nat;
  weight : nat -> nat -> R;
  bias : nat -> R
}.

Definition linear_forward (l : Linear) (x : Tensor) : Res Tensor :=
  match list.last (shape x) with
  | Some d =>
      if d =? in_f l
      then Ok (mkTensor (removelast (shape x) ++ [out_f l])
                 (fun idx =>
                    let k := List.last idx 0%nat in
                    (Rsum (in_f l)
                       (fun j => entry x (removelast idx ++ [j]) * weight l k j)
                     + bias l k)%R))
      else Raise RuntimeError
  | None => Raise RuntimeError
  end.

(** The modules that [create_feat_layers] puts into an [nn.Sequential]:
    [nn.Identity()], [nn.Linear(..)] and an element-wise activation. *)
Inductive NNModule :=
  | Identity
  | Lin (l : Linear)
  | Activation (f : R -> R).

Definition module_forward (m : NNModule) (x : Tensor) : Res Tensor :=
  match m with
  | Identity => Ok x
  | Lin l => linear_forward l x
  | Activation f => Ok (tmap f x)
  end.

(** Application of an [nn.Sequential] holding the modules [ms]. *)
Fixpoint sequential (ms : list NNModule) (x : Tensor) : Res Tensor :=
  match ms with
  | [] => Ok x
  | m :: rest => y ← module_forward m x; sequential rest y
  end.

(** ** The circuit objects that the CSPN reads and writes *)

(** [CspnConfig(RatSpnConfig)].  Of the base configuration only [C], [I] and
    [R], which [cspn.py] reads, are kept.  A list option that is [None] or
    empty in Python (both are falsy) is the empty list. *)
Module CspnConfig.
Record t := mk {
  F_cond : list nat;
  feat_layers : list nat;
  conv_kernel_size : nat;
  conv_pooling_kernel_size : nat;
  conv_pooling_stride : nat;
  sum_param_layers : list nat;
  dist_param_layers : list nat;
  cond_layers_inner_act : R -> R;
  C : nat;
  I : nat;
  R : nat
}.
End CspnConfig.

(** A [Sum] layer: its four structural sizes and its weight slot. *)
Record Sum := mkSum {
  in_features : nat;
  in_channels : nat;
  out_channels : nat;
  num_repetitions : nat;
  weight_param : Tensor
}.

Definition set_weight_param (s : Sum) (w : Tensor) : Sum :=
  mkSum (in_features s) (in_channels s) (out_channels s) (num_repetitions s) w.

(** An inner layer is a [Sum] or it is not ([isinstance(layer, Sum)]); the
    other layers carry the attribute [num_conditionals] once it has been
    assigned. *)
Inductive Layer :=
  | SumLayer (s : Sum)
  | CrossProduct (num_conditionals : option nat).

(** [self._leaf.base_leaf]: the number of features, the two parameter slots
    and the value-wise bounds of the leaf's two bounding functions. *)
Record BaseLeaf := mkBaseLeaf {
  leaf_in_features : nat;
  mean_param : Tensor;
  std_param : Tensor;
  mean_bound : R -> R;
  std_bound : R -> R
}.

(** Modelled from the spec: [bounded_means] and [bounded_stds] of the leaf
    (class [RatNormal], not in the sources).  The spec calls a bounding
    function a transform constraining a raw generated value into a valid
    parameter range: it acts value by value and keeps the shape. *)
Definition bounded_means (l : BaseLeaf) (t : Tensor) : Tensor :=
  tmap (mean_bound l) t.
Definition bounded_stds (l : BaseLeaf) (t : Tensor) : Tensor :=
  tmap (std_bound l) t.

(** Modelled from the spec: the leaf attribute [means] (a property of
    [RatNormal], not in the sources), read by [forward] for its leading
    dimension only, which is the number of weight sets currently injected:
    the leading dimension of the mean slot. *)
Definition means (l : BaseLeaf) : Tensor := mean_param l.

Definition set_leaf_params (l : BaseLeaf) (m s : Tensor) : BaseLeaf :=
  mkBaseLeaf (leaf_in_features l) m s (mean_bound l) (std_bound l).

(** The attributes of a constructed [RatSpn] that the CSPN touches. *)
Record RatSpn := mkRatSpn {
  spn_config : CspnConfig.t;
  spn_inner_layers : list Layer;
  spn_root : Sum;
  spn_sampling_root : Sum;
  spn_base_leaf : BaseLeaf
}.

(** A constructed [CSPN]: the circuit attributes and the conditioning
    networks created by [create_feat_layers]. *)
Record CSPN := mkCSPN {
  config : CspnConfig.t;
  inner_layers : list Layer;
  root : Sum;
  sampling_root : Sum;
  base_leaf : BaseLeaf;
  feat_layers : list NNModule;
  sum_layers : list NNModule;
  sum_param_heads : list Linear;
  dist_layers : list NNModule;
  dist_mean_head : Linear;
  dist_std_head : Linear
}.

(** The [Sum] layers among the inner layers, in order. *)
Fixpoint sums (ls : list Layer) : list Sum :=
  match ls with
  | [] => []
  | SumLayer s :: rest => s :: sums rest
  | CrossProduct _ :: rest => sums rest
  end.

(** ** Construction *)

(** [replace_layer_params]: every parameter becomes a zero placeholder of
    the same shape.  The leaf's two slots both receive the placeholder made
    from [mean_param]. *)
Definition replace_layer (l : Layer) : Layer :=
  match l with
  | SumLayer s => SumLayer (set_weight_param s (zeros_like (weight_param s)))
  | CrossProduct n => CrossProduct n
  end.

Definition replace_layer_params (b : RatSpn) : RatSpn :=
  let placeholder := zeros_like (mean_param (spn_base_leaf b)) in
  mkRatSpn (spn_config b)
    (map replace_layer (spn_inner_layers b))
    (set_weight_param (spn_root b) (zeros_like (weight_param (spn_root b))))
    (set_weight_param (spn_sampling_root b)
       (zeros_like (weight_param (spn_sampling_root b))))
    (set_leaf_params (spn_base_leaf b) placeholder placeholder).

(** The initial weight matrix and bias of an [nn.Linear(i, o)], which torch
    draws at random, are supplied by an initialiser. *)
Definition Init := nat -> nat -> (nat -> nat -> R) * (nat -> R).

Definition new_linear (init : Init) (i o : nat) : Linear :=
  mkLinear i o (init i o).1 (init i o).2.

(** [for j in range(len(sizes) - 1):
       layers += [nn.Linear(sizes[j], sizes[j+1]), act_j()]]
    where [act_j] is [inner] before the last step and [final] at the last. *)
Fixpoint linear_stack (init : Init) (inner final : NNModule) (sizes : list nat)
  : list NNModule :=
  match sizes with
  | a :: rest =>
      match rest with
      | b :: more =>
          Lin (new_linear init a b)
            :: (match more with [] => final | _ :: _ => inner end)
            :: linear_stack init inner final rest
      | [] => []
      end
  | [] => []
  end.

(** [create_feat_layers(feature_dim)].  The branch for a conditioning shape
    of three dimensions opens with [assert False]; the statements that follow
    it in the source are never reached. *)
Definition create_feat_layers (init : Init) (b : RatSpn) (feature_dim : list nat)
  : Res CSPN :=
  let cfg := spn_config b in
  let act := Activation (CspnConfig.cond_layers_inner_act cfg) in
  _ ← assert ((length feature_dim =? 3) || (length feature_dim =? 1));
  feat ←
    (if length feature_dim =? 3 then
       _ ← assert false; Ok [Identity]
     else
       match CspnConfig.feat_layers cfg with
       | [] => Ok [Identity]
       | widths =>
           Ok (linear_stack init act act (hd 0%nat feature_dim :: widths))
       end);
  probe ← sequential feat (ones (1%nat :: feature_dim));
  let feature_dim := numel probe in
  let sum_layer_sizes := feature_dim :: CspnConfig.sum_param_layers cfg in
  let sum_layers :=
    match CspnConfig.sum_param_layers cfg with
    | [] => [Identity]
    | _ => linear_stack init act Identity sum_layer_sizes
    end in
  let sum_last := List.last sum_layer_sizes 0%nat in
  let sum_param_heads :=
    map (fun s => new_linear init sum_last (numel (weight_param s)))
      (sums (spn_inner_layers b))
    ++ [new_linear init sum_last (numel (weight_param (spn_root b)))] in
  let dist_layer_sizes := feature_dim :: CspnConfig.dist_param_layers cfg in
  let dist_layers :=
    match CspnConfig.dist_param_layers cfg with
    | [] => [Identity]
    | _ => linear_stack init act Identity dist_layer_sizes
    end in
  let dist_last := List.last dist_layer_sizes 0%nat in
  Ok (mkCSPN cfg (spn_inner_layers b) (spn_root b) (spn_sampling_root b)
        (spn_base_leaf b) feat sum_layers sum_param_heads dist_layers
        (new_linear init dist_last (numel (mean_param (spn_base_leaf b))))
        (new_linear init dist_last (numel (std_param (spn_base_leaf b))))).

(** [CSPN.__init__], after the base constructor has produced [b]. *)
Definition CSPN_init (init : Init) (b : RatSpn) : Res CSPN :=
  let b' := replace_layer_params b in
  create_feat_layers init b' (CspnConfig.F_cond (spn_config b')).

(** ** Parameter injection *)

(** [self.sum_param_heads[i]] *)
Definition head_at (heads : list Linear) (i : nat) : Res Linear :=
  match heads !! i with
  | Some h => Ok h
  | None => Raise IndexError
  end.

(** The weight shape of a [Sum] layer for [n] weight sets. *)
Definition weight_shape (n : nat) (s : Sum) : list nat :=
  [n; in_features s; in_channels s; out_channels s; num_repetitions s].

(** [F.log_softmax(head(pre).view(weight_shape), dim=2)] *)
Definition normalized_weights (head : Linear) (pre : Tensor) (n : nat) (s : Sum)
  : Res Tensor :=
  out ← linear_forward head pre;
  weights ← view out (weight_shape n s);
  log_softmax weights 2.

(** The loop of [set_params] over the inner layers; [i] counts the [Sum]
    layers met so far and is returned for the root's head. *)
Fixpoint set_inner_weights (heads : list Linear) (pre : Tensor) (n : nat)
    (layers : list Layer) (i : nat) : Res (list Layer * nat) :=
  match layers with
  | [] => Ok ([], i)
  | SumLayer s :: rest =>
      head ← head_at heads i;
      w ← normalized_weights head pre n s;
      r ← set_inner_weights heads pre n rest (S i);
      Ok (SumLayer (set_weight_param s w) :: r.1, r.2)
  | CrossProduct _ :: rest =>
      r ← set_inner_weights heads pre n rest i;
      Ok (CrossProduct (Some n) :: r.1, r.2)
  end.

(** [1/self.config.C], a division of Python numbers. *)
Definition one_over (c : nat) : Res R :=
  if c =? 0 then Raise ZeroDivisionError else Ok (1 / INR c)%R.

(** [set_params(feat_inp)] *)
Definition set_params (self : CSPN) (feat_inp : Tensor) : Res CSPN :=
  num_conditionals ← shape_at feat_inp 0;
  features ← sequential (feat_layers self) feat_inp;
  features ← flatten1 features;
  sum_weights_pre_output ← sequential (sum_layers self) features;
  r ← set_inner_weights (sum_param_heads self) sum_weights_pre_output
         num_conditionals (inner_layers self) 0;
  let '(layers, i) := r in
  head ← head_at (sum_param_heads self) i;
  root_weights ←
    normalized_weights head sum_weights_pre_output num_conditionals (root self);
  c ← one_over (CspnConfig.C (config self));
  let sampling_weights := log_ (mul_ (ones [num_conditionals; 1; 1; 1; 1]%nat) c) in
  let dist_param_shape :=
    [num_conditionals; leaf_in_features (base_leaf self);
     CspnConfig.I (config self); CspnConfig.R (config self)] in
  dist_weights_pre_output ← sequential (dist_layers self) features;
  mean_out ← linear_forward (dist_mean_head self) dist_weights_pre_output;
  dist_means ← view mean_out dist_param_shape;
  std_out ← linear_forward (dist_std_head self) dist_weights_pre_output;
  dist_stds ← view std_out dist_param_shape;
  let dist_means := bounded_means (base_leaf self) dist_means in
  let dist_stds := bounded_stds (base_leaf self) dist_stds in
  Ok (mkCSPN (config self) layers
        (set_weight_param (root self) root_weights)
        (set_weight_param (sampling_root self) sampling_weights)
        (set_leaf_params (base_leaf self) dist_means dist_stds)
        (feat_layers self) (sum_layers self) (sum_param_heads self)
        (dist_layers self) (dist_mean_head self) (dist_std_head self)).

(** [clear_params()] *)
Definition clear_layer (l : Layer) : Layer :=
  match l with
  | SumLayer s => SumLayer (set_weight_param s (zeros (weight_shape 0 s)))
  | CrossProduct _ => CrossProduct (Some 0%nat)
  end.

Definition clear_params (self : CSPN) : CSPN :=
  let dist_param_shape :=
    [0%nat; leaf_in_features (base_leaf self);
     CspnConfig.I (config self); CspnConfig.R (config self)] in
  mkCSPN (config self)
    (map clear_layer (inner_layers self))
    (set_weight_param (root self) (zeros (weight_shape 0 (root self))))
    (set_weight_param (sampling_root self) (zeros [0; 1; 1; 1; 1]%nat))
    (set_leaf_params (base_leaf self)
       (zeros dist_param_shape) (zeros dist_param_shape))
    (feat_layers self) (sum_layers self) (sum_param_heads self)
    (dist_layers self) (dist_mean_head self) (dist_std_head self).

(** ** The facade *)

(** [if condition is not None: self.set_params(condition)] *)
Definition inject (self : CSPN) (condition : option Tensor) : Res CSPN :=
  match condition with
  | Some c => set_params self c
  | None => Ok self
  end.

Section Facade.
(** The operations inherited from [RatSpn], which receive the circuit with
    the parameters that are injected at the time of the call. *)
Context {Kwargs Out : Type}.
Variable super_forward : CSPN -> Tensor -> Kwargs -> Res Out.
Variable super_sample :
  CSPN -> option string -> option (list nat) -> option Tensor -> Kwargs
  -> Res Out.

(** [forward(x, condition=None, **kwargs)] *)
Definition forward (self : CSPN) (x : Tensor) (condition : option Tensor)
    (kwargs : Kwargs) : Res Out :=
  self ← inject self condition;
  weight_sets ← shape_at (means (base_leaf self)) 0;
  if dim x =? 3 then
    n ← shape_at x 1;
    _ ← assert (n =? weight_sets);
    super_forward self x kwargs
  else if dim x =? 2 then
    n ← shape_at x 0;
    _ ← assert (n =? weight_sets);
    super_forward self (unsqueeze0 x) kwargs
  else
    super_forward self x kwargs.

(** [sample(mode=None, condition=None, class_index=None, evidence=None,
    **kwargs)].  With [condition] absent, the assertion's [condition.shape] is an
    attribute access on [None]. *)
Definition sample (self : CSPN) (mode : option string)
    (condition : option Tensor) (class_index : option (list nat))
    (evidence : option Tensor) (kwargs : Kwargs) : Res Out :=
  self ← inject self condition;
  _ ← match class_index with
      | None => Ok tt
      | Some ci =>
          match condition with
          | None => Raise AttributeError
          | Some c => n ← shape_at c 0; assert (n =? length ci)
          end
      end;
  super_sample self mode class_index evidence kwargs.
End Facade.

(** [sample_index_style] and [sample_onehot_style] *)
Definition sample_index_style {Kwargs Out : Type}
    (super_sample : CSPN -> option string -> option (list nat) -> option Tensor
                    -> Kwargs -> Res Out)
    (self : CSPN) (condition : option Tensor) (class_index : option (list nat))
    (evidence : option Tensor) (kwargs : Kwargs) : Res Out :=
  sample super_sample self (Some "index"%string) condition class_index evidence
    kwargs.

Definition sample_onehot_style {Kwargs Out : Type}
    (super_sample : CSPN -> option string -> option (list nat) -> option Tensor
                    -> Kwargs -> Res Out)
    (self : CSPN) (condition : option Tensor) (class_index : option (list nat))
    (evidence : option Tensor) (kwargs : Kwargs) : Res Out :=
  sample super_sample self (Some "onehot"%string) condition class_index evidence
    kwargs.

(** ** The layerwise variant *)

(** [compute_weights] of [RandomSPNs_layerwise/cspn.py], on the same
    records: its attributes [weights], [means], [stds] and [conv_layers] are
    the slots [weight_param], [mean_param], [std_param] and [feat_layers]. *)
Module Layerwise.

Definition raw_weights (head : Linear) (pre : Tensor) (n : nat) (s : Sum)
  : Res Tensor :=
  out ← linear_forward head pre;
  view out (weight_shape n s).

Fixpoint set_inner_weights (heads : list Linear) (pre : Tensor) (n : nat)
    (layers : list Layer) (i : nat) : Res (list Layer * nat) :=
  match layers with
  | [] => Ok ([], i)
  | SumLayer s :: rest =>
      head ← head_at heads i;
      w ← raw_weights head pre n s;
      r ← set_inner_weights heads pre n rest (S i);
      Ok (SumLayer (set_weight_param s w) :: r.1, r.2)
  | CrossProduct c :: rest =>
      r ← set_inner_weights heads pre n rest i;
      Ok (CrossProduct c :: r.1, r.2)
  end.

Definition compute_weights (self : CSPN) (feat_inp : Tensor) : Res CSPN :=
  batch_size ← shape_at feat_inp 0;
  features ← sequential (feat_layers self) feat_inp;
  features ← flatten1 features;
  sum_weights_pre_output ← sequential (sum_layers self) features;
  r ← set_inner_weights (sum_param_heads self) sum_weights_pre_output
         batch_size (inner_layers self) 0;
  let '(layers, i) := r in
  head ← head_at (sum_param_heads self) i;
  root_weights ← raw_weights head sum_weights_pre_output batch_size (root self);
  let dist_param_shape :=
    [batch_size; leaf_in_features (base_leaf self);
     CspnConfig.I (config self); CspnConfig.R (config self)] in
  dist_weights_pre_output ← sequential (dist_layers self) features;
  mean_out ← linear_forward (dist_mean_head self) dist_weights_pre_output;
  dist_means ← view mean_out dist_param_shape;
  std_out ← linear_forward (dist_std_head self) dist_weights_pre_output;
  dist_stds ← view std_out dist_param_shape;
  Ok (mkCSPN (config self) layers
        (set_weight_param (root self) root_weights)
        (sampling_root self)
        (set_leaf_params (base_leaf self) dist_means dist_stds)
        (feat_layers self) (sum_layers self) (sum_param_heads self)
        (dist_layers self) (dist_mean_head self) (dist_std_head self)).

End Layerwise.

(** ** Notions used in the statements *)

(** In probability space the weights add up to one over the [ic] input
    channels, for every weight set, feature, output channel and
    repetition. *)
Definition sums_to_one (w : Tensor) (ic : nat) : Prop :=
  forall n f o r : nat,
    Rsum ic (fun c => exp (entry w [n; f; c; o; r])) = 1%R.

(** The four structural sizes of a [Sum] layer. *)
Definition sizes (s : Sum) : nat * nat * nat * nat :=
  (in_features s, in_channels s, out_channels s, num_repetitions s).

(** The shape of the leaf's parameters for [n] weight sets. *)
Definition dist_param_shape (self : CSPN) (n : nat) : list nat :=
  [n; leaf_in_features (base_leaf self);
   CspnConfig.I (config self); CspnConfig.R (config self)].

(** [a] is the log-softmax over the input channels of [b], layer by layer. *)
Definition normalizes (a b : Sum) : Prop :=
  sizes a = sizes b /\ log_softmax (weight_param b) 2 = Ok (weight_param a).

(** A base circuit that returns the data it is handed, to run the facade. *)
Definition echo_forward (_ : CSPN) (x : Tensor) (_ : unit) : Res Tensor := Ok x.
Definition echo_sample (_ : CSPN) (_ : option string) (_ : option (list nat))
    (_ : option Tensor) (_ : unit) : Res Tensor := Ok (zeros []).

(** ** A small circuit, used to run the definitions *)

Module Example.

(** [nn.LeakyReLU()], the default inner activation. *)
Definition leaky_relu (v : R) : R :=
  if Rle_dec 0 v then v else (0.01 * v)%R.

Definition cfg (f_cond : list nat) (c : nat) : CspnConfig.t :=
  CspnConfig.mk f_cond [] 5 3 3 [] [] leaky_relu c 2 1.

(** Two features, two leaf components, one repetition; one product layer
    and one sum layer below a root with [c] classes. *)
Definition base_for (f_cond : list nat) (c : nat) : RatSpn :=
  mkRatSpn (cfg f_cond c)
    [CrossProduct None; SumLayer (mkSum 1 4 2 1 (ones [1; 4; 2; 1]%nat))]
    (mkSum 1 2 c 1 (ones [1; 2; c; 1]%nat))
    (mkSum 1 c 1 1 (ones [1; c; 1; 1]%nat))
    (mkBaseLeaf 2 (ones [1; 2; 2; 1]%nat) (ones [1; 2; 2; 1]%nat)
       (fun v => v) exp).

(** The conditioning input is a vector of length three. *)
Definition base (c : nat) : RatSpn := base_for [3%nat] c.

(** Every new linear map starts at zero. *)
Definition init0 : Init := fun _ _ => (fun _ _ => 0%R, fun _ => 0%R).

Definition cspn (c : nat) : CSPN :=
  match CSPN_init init0 (base c) with
  | Ok m => m
  | Raise _ =>
      mkCSPN (cfg [3%nat] c) [] (spn_root (base c)) (spn_sampling_root (base c))
        (spn_base_leaf (base c)) [] [] [] []
        (new_linear init0 0 0) (new_linear init0 0 0)
  end.

(** A conditioning batch of two vectors of length three. *)
Definition condition : Tensor := ones [2; 3]%nat.

(** The circuit with [c] classes after the layerwise
    [compute_weights(condition)]. *)
Definition raw (c : nat) : CSPN :=
  match Layerwise.compute_weights (cspn c) condition with
  | Ok m => m
  | Raise _ => cspn c
  end.

(** The circuit with [c] classes after [set_params(condition)]. *)
Definition injected (c : nat) : CSPN :=
  match set_params (cspn c) condition with
  | Ok m => m
  | Raise _ => cspn c
  end.

End Example.

(** ** The entropy operations of the facade *)

Section Entropies.
Context {Kwargs Reduction Out : Type}.
Variable super_recursive_entropy_approx : CSPN -> Kwargs -> Res Out.
Variable super_naive_entropy_approx : CSPN -> Kwargs -> Res Out.
Variable super_huber_entropy_lb : CSPN -> Kwargs -> Res Out.
Variable super_sum_node_entropies : CSPN -> Reduction -> Res Out.

(** [recursive_entropy_approx(condition=None, **kwargs)] *)
Definition recursive_entropy_approx (self : CSPN) (condition : option Tensor)
    (kwargs : Kwargs) : Res Out :=
  self ← inject self condition;
  super_recursive_entropy_approx self kwargs.

(** [naive_entropy_approx(condition=None, **kwargs)] *)
Definition naive_entropy_approx (self : CSPN) (condition : option Tensor)
    (kwargs : Kwargs) : Res Out :=
  self ← inject self condition;
  super_naive_entropy_approx self kwargs.

(** [huber_entropy_lb(condition=None, **kwargs)] *)
Definition huber_entropy_lb (self : CSPN) (condition : option Tensor)
    (kwargs : Kwargs) : Res Out :=
  self ← inject self condition;
  super_huber_entropy_lb self kwargs.

(** [sum_node_entropies(condition=None, reduction='mean')] *)
Definition sum_node_entropies (self : CSPN) (condition : option Tensor)
    (reduction : Reduction) : Res Out :=
  self ← inject self condition;
  super_sum_node_entropies self reduction.
End Entropies.

(** ** Further notions used in the statements *)

(** The weight slot of a [Sum] layer holds one value per combination of
    feature, input channel, output channel and repetition. *)
Definition sum_slot_fits (s : Sum) : Prop :=
  numel (weight_param s)
  = in_features s * in_channels s * out_channels s * num_repetitions s.

(** The base circuit's slots have the sizes that its layers declare. *)
Definition slots_fit (b : RatSpn) : Prop :=
  Forall sum_slot_fits (sums (spn_inner_layers b))
  /\ sum_slot_fits (spn_root b)
  /\ numel (mean_param (spn_base_leaf b))
     = leaf_in_features (spn_base_leaf b) * CspnConfig.I (spn_config b)
       * CspnConfig.R (spn_config b).

(** Two layers are of the same kind and, if they are [Sum] layers, of the
    same sizes. *)
Definition same_layer (a b : Layer) : Prop :=
  match a, b with
  | SumLayer s, SumLayer t => sizes s = sizes t
  | CrossProduct _, CrossProduct _ => True
  | _, _ => False
  end.

(** Two circuits that differ at most in the values of their parameter
    slots and in the [num_conditionals] of their product layers. *)
Definition same_structure (a b : CSPN) : Prop :=
  config a = config b
  /\ Forall2 same_layer (inner_layers a) (inner_layers b)
  /\ sizes (root a) = sizes (root b)
  /\ sampling_root a = set_weight_param (sampling_root b)
                         (weight_param (sampling_root a))
  /\ base_leaf a = set_leaf_params (base_leaf b)
                     (mean_param (base_leaf a)) (std_param (base_leaf a))
  /\ feat_layers a = feat_layers b
  /\ sum_layers a = sum_layers b
  /\ sum_param_heads a = sum_param_heads b
  /\ dist_layers a = dist_layers b
  /\ dist_mean_head a = dist_mean_head b
  /\ dist_std_head a = dist_std_head b.

(** The width of the feature vector that the conditioning networks of a
    flat conditioning shape [(d,)] produce: the last configured width, or
    [d] when none is configured. *)
Definition feature_width (cfg : CspnConfig.t) (d : nat) : nat :=
  List.last (d :: CspnConfig.feat_layers cfg) 0%nat.

(** A network that maps every batch of vectors of length [a] to a batch of
    vectors of length [b]. *)
Definition maps_width (ms : list NNModule) (a b : nat) : Prop :=
  forall (n : nat) (x : Tensor),
    shape x = [n; a] -> exists y, sequential ms x = Ok y /\ shape y = [n; b].


(** ** Counting parameters *)

(** The elements of the weight matrix and of the bias of an [nn.Linear],
    both trainable. *)
Definition linear_params (l : Linear) : nat := out_f l * in_f l + out_f l.

(** [count_params(model)] for a sequential network: the sum of [p.numel()]
    over its trainable parameters.  Its linear maps have them; the
    activation is taken to have none, as the default [nn.LeakyReLU]. *)
Definition count_params (ms : list NNModule) : nat :=
  foldr (fun m acc =>
           match m with Lin l => linear_params l + acc | _ => acc end)
    0%nat ms.

(** The numbers that [print_cspn_params] prints after the total: the
    parameters of the feature extractor, of the sum pipeline without its
    heads, of the heads of the sum pipeline, of the distribution pipeline
    without its heads, and of the two leaf heads. *)
Record ParamCounts := mkParamCounts {
  feat_params : nat;
  sum_layer_params : nat;
  sum_head_params : nat;
  dist_layer_params : nat;
  dist_head_params : nat
}.

Definition print_cspn_params (cspn : CSPN) : ParamCounts :=
  mkParamCounts
    (count_params (feat_layers cspn))
    (count_params (sum_layers cspn))
    (foldr Nat.add 0%nat (map linear_params (sum_param_heads cspn)))
    (count_params (dist_layers cspn))
    (linear_params (dist_mean_head cspn) + linear_params (dist_std_head cspn)).

(** ** Assignment to a configuration attribute *)

(** [CspnConfig.__setattr__(key, value)]: the object is seen as the finite
    map from the names for which [hasattr] holds to their values; the
    assignment goes through for such a name and raises an [AttributeError]
    for any other. *)
Definition setattr {V : Type} (self : gmap string V) (key : string) (value : V)
  : Res (gmap string V) :=
  match self !! key with
  | Some _ => Ok (<[key:=value]> self)
  | None => Raise AttributeError
  end.

(** A sequence of assignments, as in a script that fills a configuration. *)
Fixpoint setattrs {V : Type} (self : gmap string V)
    (assignments : list (string * V)) : Res (gmap string V) :=
  match assignments with
  | [] => Ok self
  | (key, value) :: rest => self ← setattr self key value; setattrs self rest
  end.

(** ** Construction and facade of the layerwise variant *)

Module LayerwiseInit.

(** The modules of [conv_layers]; only their constructor arguments
    matter here. *)
Inductive ConvModule :=
  | ConvIdentity
  | Conv2d (in_channels out_channels : nat) (kernel_size : Z)
  | ReLU
  | MaxPool2d (kernel_size stride : Z)
  | Dropout.

(** The options of the layerwise [CspnConfig] that [create_feat_layers]
    reads. *)
Record Config := mkConfig {
  nr_conv_layers : nat;
  conv_kernel_size : Z;
  conv_pooling_kernel_size : Z;
  conv_pooling_stride : Z
}.

(** [int(np.floor((n - (pool_kernel-1) - 1)/pool_stride + 1))]; the
    division of Python numbers raises for a zero stride. *)
Definition pooled (pool_kernel pool_stride n : Z) : Res Z :=
  if (pool_stride =? 0)%Z then Raise ZeroDivisionError
  else Ok ((n - (pool_kernel - 1) - 1) / pool_stride + 1)%Z.

(** [[f(n) for n in dims]] for an [f] that may raise. *)
Fixpoint map_res {A B : Type} (f : A -> Res B) (l : list A) : Res (list B) :=
  match l with
  | [] => Ok []
  | a :: rest => b ← f a; bs ← map_res f rest; Ok (b :: bs)
  end.

(** The loop over [range(nr_conv_layers)]: the dimensions after every
    pooling, and the modules appended. *)
Fixpoint conv_loop (cfg : Config) (k : nat) (feature_dim : list Z)
    (conv_layers : list ConvModule) : Res (list Z * list ConvModule) :=
  match k with
  | O => Ok (feature_dim, conv_layers)
  | S k' =>
      feature_dim ←
        map_res (pooled (conv_pooling_kernel_size cfg) (conv_pooling_stride cfg))
          feature_dim;
      conv_loop cfg k' feature_dim
        (conv_layers
         ++ [Conv2d 1 1 (conv_kernel_size cfg); ReLU;
             MaxPool2d (conv_pooling_kernel_size cfg) (conv_pooling_stride cfg);
             Dropout])
  end.

(** [int(np.prod(feature_dim))] *)
Definition prod_Z (dims : list Z) : Z := foldr Z.mul 1%Z dims.

(** [nn.Linear(i, o)] for an integer [i]: a negative size is refused. *)
Definition new_linear_Z (init : Init) (i : Z) (o : nat) : Res Linear :=
  if (i <? 0)%Z then Raise RuntimeError else Ok (new_linear init (Z.to_nat i) o).

(** The conditioning networks of the layerwise CSPN. *)
Record Nets := mkNets {
  conv_layers : list ConvModule;
  sum_layers : list NNModule;
  sum_param_heads : list Linear;
  dist_layers : list NNModule;
  dist_mean_head : Linear;
  dist_std_head : Linear
}.

(** [create_feat_layers(feature_input_dim)], whose first branch is taken
    always ([if True:]).  With the single size [feature_dim] in
    [sum_layer_sizes] and in [dist_layer_sizes], the two loops that would
    build the pipelines run zero times. *)
Definition create_feat_layers (init : Init) (cfg : Config) (b : RatSpn)
    (feature_input_dim : list Z) : Res Nets :=
  r ← conv_loop cfg (nr_conv_layers cfg) feature_input_dim
         (if (0 <? nr_conv_layers cfg)%nat then [] else [ConvIdentity]);
  let '(feature_dim, conv_layers) := r in
  let feature_dim := prod_Z feature_dim in
  heads ← map_res (fun s => new_linear_Z init feature_dim (numel (weight_param s)))
            (sums (spn_inner_layers b));
  root_head ← new_linear_Z init feature_dim (numel (weight_param (spn_root b)));
  mean_head ← new_linear_Z init feature_dim
                (numel (mean_param (spn_base_leaf b)));
  std_head ← new_linear_Z init feature_dim
               (numel (std_param (spn_base_leaf b)));
  Ok (mkNets conv_layers [] (heads ++ [root_head]) [] mean_head std_head).

Section Facade.
Context {Out : Type}.
Variable super_forward : CSPN -> Tensor -> Res Out.
Variable super_sample :
  CSPN -> option nat -> option (list nat) -> option Tensor -> bool -> Res Out.

(** [compute_weights] on an argument that may be [None]: reading
    [feat_inp.shape] of [None] is an [AttributeError]. *)
Definition compute_weights_arg (self : CSPN) (condition : option Tensor)
  : Res CSPN :=
  match condition with
  | Some c => Layerwise.compute_weights self c
  | None => Raise AttributeError
  end.

(** [forward(x, condition)] *)
Definition forward (self : CSPN) (x : Tensor) (condition : option Tensor)
  : Res Out :=
  self ← compute_weights_arg self condition;
  super_forward self x.

(** [sample(condition, n=None, class_index=None, evidence=None,
    is_mpe=False)] *)
Definition sample (self : CSPN) (condition : Tensor) (n : option nat)
    (class_index : option (list nat)) (evidence : option Tensor)
    (is_mpe : bool) : Res Out :=
  self ← Layerwise.compute_weights self condition;
  _ ← match n with
      | None => Ok tt
      | Some k => b ← shape_at condition 0; assert (b =? k)
      end;
  _ ← match class_index with
      | None => Ok tt
      | Some ci => b ← shape_at condition 0; assert (b =? length ci)
      end;
  super_sample self n class_index evidence is_mpe.
End Facade.

End LayerwiseInit.

(** What [set_params] for a batch of [n] conditions does to a layer: a
    [Sum] layer keeps its sizes, any other layer has its [num_conditionals]
    set to [n]. *)
Definition layer_after (n : nat) (before after : Layer) : Prop :=
  match before, after with
  | SumLayer s, SumLayer s' => sizes s' = sizes s
  | CrossProduct _, CrossProduct k => k = Some n
  | _, _ => False
  end.



(** The body of the loop of [evaluate_model] in the STL-10 script, up to
    the likelihood: [sample = model.sample(condition=cond)] followed by
    [model(x=sample, condition=None)], where [model] is the layerwise CSPN
    and the sample the base circuit returns is a tensor.  The second call
    meets the model with the weights that [sample] computed from [cond]. *)
Definition evaluate_model_step {Out : Type}
    (super_forward : CSPN -> Tensor -> Res Out)
    (super_sample : CSPN -> option nat -> option (list nat) -> option Tensor
                    -> bool -> Res Tensor)
    (model : CSPN) (cond : Tensor) : Res Out :=
  sample ← LayerwiseInit.sample super_sample model cond None None None false;
  model ← Layerwise.compute_weights model cond;
  LayerwiseInit.forward super_forward model sample None.


(** ** The image cut-out of the STL-10 script *)

Module Stl10.

(** [t[:, :, r0:r1, c0:c1]], a slice of the third and fourth axes; bounds
    past the end of an axis are clamped to it.  Fewer than four axes are too
    few for the four indices. *)
Definition clamp (r : nat * nat) (size : nat) : nat * nat :=
  (Nat.min r.1 size, Nat.min r.2 size).

Definition in_window (r c : nat * nat) (i j : nat) : bool :=
  (r.1 <=? i) && (i <? r.2) && (c.1 <=? j) && (j <? c.2).

Definition window_shape (sh : list nat) (rows cols : nat * nat)
  : Res (list nat) :=
  match sh with
  | n :: c :: h :: w :: rest =>
      let r := clamp rows h in
      let k := clamp cols w in
      Ok (n :: c :: (r.2 - r.1) :: (k.2 - k.1) :: rest)
  | _ => Raise IndexError
  end.

Definition window (t : Tensor) (rows cols : nat * nat) : Res Tensor :=
  sh ← window_shape (shape t) rows cols;
  let r := clamp rows (nth 2 (shape t) 0%nat) in
  let k := clamp cols (nth 3 (shape t) 0%nat) in
  Ok (mkTensor sh
        (fun idx =>
           match idx with
           | a :: b :: i :: j :: tail =>
               entry t (a :: b :: (r.1 + i) :: (k.1 + j) :: tail)
           | _ => 0%R
           end)).

(** [t[:, :, r0:r1, c0:c1] = v] for a number [v], in place. *)
Definition fill_window (t : Tensor) (rows cols : nat * nat) (v : R)
  : Res Tensor :=
  _ ← window_shape (shape t) rows cols;
  let r := clamp rows (nth 2 (shape t) 0%nat) in
  let k := clamp cols (nth 3 (shape t) 0%nat) in
  Ok (mkTensor (shape t)
        (fun idx =>
           match idx with
           | _ :: _ :: i :: j :: _ =>
               if in_window r k i j then v else entry t idx
           | _ => entry t idx
           end)).

(** Whether a tensor of shape [src] can be broadcast to the shape [dst]:
    aligned at the last axis, every size of [src] is the size of [dst] or
    one. *)
Fixpoint broadcasts_rev (src dst : list nat) : bool :=
  match src, dst with
  | [], _ => true
  | _ :: _, [] => false
  | a :: src', b :: dst' => ((a =? b) || (a =? 1)) && broadcasts_rev src' dst'
  end.

Definition broadcasts (src dst : list nat) : bool :=
  broadcasts_rev (rev src) (rev dst).

(** [t[:, :, r0:r1, c0:c1] = src] for a tensor [src], in place; torch raises
    a [RuntimeError] when [src] cannot be broadcast to the slice. *)
Definition set_window (t : Tensor) (rows cols : nat * nat) (src : Tensor)
  : Res Tensor :=
  sh ← window_shape (shape t) rows cols;
  if broadcasts (shape src) sh then
    let r := clamp rows (nth 2 (shape t) 0%nat) in
    let k := clamp cols (nth 3 (shape t) 0%nat) in
    Ok (mkTensor (shape t)
          (fun idx =>
             match idx with
             | a :: b :: i :: j :: tail =>
                 if in_window r k i j then
                   let widx := a :: b :: (i - r.1) :: (j - k.1) :: tail in
                   entry src
                     (broadcast_index (shape src)
                        (drop (length widx - dim src) widx))
                 else entry t idx
             | _ => entry t idx
             end))
  else Raise RuntimeError.

(** [t.view(-1, *sizes)]: the leading size is inferred; it cannot be when
    the given sizes multiply to zero or do not divide the element count. *)
Definition view_infer (t : Tensor) (sizes : list nat) : Res Tensor :=
  let p := prod_dims sizes in
  if p =? 0 then Raise RuntimeError
  else if numel t mod p =? 0 then view t (numel t / p :: sizes)
  else Raise RuntimeError.

Section Cutout.
(** The values that the two closures of the script capture. *)
Variable center_cutout : list nat.
Variable cutout_rows cutout_cols : nat * nat.

(** [cut_out_center(image)]: the pair [(data, cond)].  [cond] is the
    argument [image] itself, whose centre the function has overwritten with
    zeros; [data] is a copy of the centre taken before. *)
Definition cut_out_center (image : Tensor) : Res (Tensor * Tensor) :=
  data ← window image cutout_rows cutout_cols;
  cond ← fill_window image cutout_rows cutout_cols 0%R;
  Ok (data, cond).

(** [insert_center(sample, cond)]: [cond] after the assignment. *)
Definition insert_center (sample cond : Tensor) : Res Tensor :=
  v ← view_infer sample center_cutout;
  set_window cond cutout_rows cutout_cols v.
End Cutout.

(** The constants of the script. *)
Definition img_size : list nat := [3; 96; 96]%nat.
Definition center_cutout : list nat := [3; 32; 32]%nat.
Definition cutout_rows : nat * nat :=
  (nth 1 img_size 0 / 2 - nth 1 center_cutout 0 / 2,
   nth 1 img_size 0 / 2 + nth 1 center_cutout 0 / 2)%nat.
Definition cutout_cols : nat * nat :=
  (nth 2 img_size 0 / 2 - nth 2 center_cutout 0 / 2,
   nth 2 img_size 0 / 2 + nth 2 center_cutout 0 / 2)%nat.

End Stl10.

(** The column of a head's output that holds the weight of feature [f],
    input channel [c], output channel [o] and repetition [r] of a [Sum]
    layer: the row-major position among the layer's weights. *)
Definition weight_column (s : Sum) (f c o r : nat) : nat :=
  ((f * in_channels s + c) * out_channels s + o) * num_repetitions s + r.

(** The example circuit is the one that the constructor returns. *)
Example example_constructed :
  CSPN_init Example.init0 (Example.base 2) = Ok (Example.cspn 2)
  /\ feat_layers (Example.cspn 2) = [Identity]
  /\ map out_f (sum_param_heads (Example.cspn 2)) = [8; 4]%nat
  /\ out_f (dist_mean_head (Example.cspn 2)) = 4%nat.
Proof. repeat split. Qed.

(** ** Reasoning about results *)

Lemma bind_Ok {A B : Type} (m : Res A) (k : A -> Res B) (b : B) :
  (m ≫= k) = Ok b -> exists a, m = Ok a /\ k a = Ok b.
Proof.
  destruct m as [a|e]; simpl; intros H; [eauto | discriminate].
Qed.

Lemma assert_Ok (b : bool) (u : unit) : assert b = Ok u -> b = true.
Proof. destruct b; [reflexivity | discriminate]. Qed.

Lemma shape_at_Ok (t : Tensor) (i n : nat) :
  shape_at t i = Ok n <-> shape t !! i = Some n.
Proof.
  unfold shape_at. destruct (shape t !! i); split; intros H;
    inversion H; reflexivity.
Qed.

(** Splits a successful sequence of binds into its successful steps. *)
Ltac bind_inv H :=
  repeat match type of H with
  | (_ ≫= _) = Ok _ =>
      let a := fresh "a" in
      let Ha := fresh "Ha" in
      apply bind_Ok in H; destruct H as (a & Ha & H)
  end.

(** ** Sums of exponentials *)

Section Softmax.
Open Scope R_scope.

Lemma Rsum_ext (n : nat) (f g : nat -> R) :
  (forall c, (c < n)%nat -> f c = g c) -> Rsum n f = Rsum n g.
Proof.
  induction n as [|n IH]; simpl; intros H; [reflexivity|].
  rewrite IH by (intros; apply H; lia). rewrite H by lia. reflexivity.
Qed.

Lemma Rsum_scale (n : nat) (f : nat -> R) (a : R) :
  Rsum n (fun c => f c * a) = Rsum n f * a.
Proof. induction n as [|n IH]; simpl; [lra | rewrite IH; lra]. Qed.

Lemma Rsum_const (n : nat) (a : R) : Rsum n (fun _ => a) = INR n * a.
Proof.
  induction n as [|n IH]; [simpl; lra|].
  rewrite S_INR. simpl. rewrite IH. lra.
Qed.

Lemma Rsum_exp_pos (n : nat) (x : nat -> R) :
  (0 < n)%nat -> 0 < Rsum n (fun c => exp (x c)).
Proof.
  intros Hn. destruct n as [|n]; [lia|]. clear Hn.
  induction n as [|n IH]; simpl in *.
  - pose proof (exp_pos (x 0%nat)). lra.
  - pose proof (exp_pos (x (S n))). lra.
Qed.

(** Exponentials of log-softmax values add up to one over a nonempty
    axis. *)
Lemma exp_log_softmax_sum (n : nat) (x : nat -> R) :
  (0 < n)%nat ->
  Rsum n (fun c => exp (x c - ln (Rsum n (fun j => exp (x j))))) = 1.
Proof.
  intros Hn. pose proof (Rsum_exp_pos n x Hn) as Hpos.
  set (S := Rsum n (fun j => exp (x j))) in *.
  rewrite (Rsum_ext n _ (fun c => exp (x c) * / S)).
  - rewrite Rsum_scale. fold S. apply Rinv_r. lra.
  - intros c _. unfold Rminus. rewrite exp_plus, exp_Ropp, exp_ln by exact Hpos.
    reflexivity.
Qed.

(** Over an empty axis the sum is zero, whatever the values. *)
Lemma Rsum_empty (f : nat -> R) : Rsum 0 f = 0.
Proof. reflexivity. Qed.

(** Without an input channel no weights can add up to one. *)
Lemma sums_to_one_needs_channel (w : Tensor) : ~ sums_to_one w 0.
Proof.
  intros H. specialize (H 0%nat 0%nat 0%nat 0%nat). simpl in H. lra.
Qed.
End Softmax.

(** ** What the injection loop assigns *)

Lemma view_shape (t t' : Tensor) (sh : list nat) :
  view t sh = Ok t' -> shape t' = sh.
Proof.
  unfold view. destruct (numel t =? prod_dims sh); intros H; inversion H.
  reflexivity.
Qed.

Lemma log_softmax_shape (t t' : Tensor) (d : nat) :
  log_softmax t d = Ok t' -> shape t' = shape t.
Proof.
  unfold log_softmax. destruct (shape t !! d); intros H; inversion H.
  reflexivity.
Qed.

Lemma log_softmax_sums_to_one (raw w : Tensor) (n a b c d : nat) :
  shape raw = [n; a; b; c; d] -> log_softmax raw 2 = Ok w ->
  (0 < b)%nat -> sums_to_one w b.
Proof.
  intros Hsh Hw Hb. unfold log_softmax in Hw. rewrite Hsh in Hw. simpl in Hw.
  inversion Hw; subst w; clear Hw. intros i f o r. simpl.
  apply (exp_log_softmax_sum b (fun j => entry raw [i; f; j; o; r])), Hb.
Qed.

Lemma normalized_weights_Ok (head : Linear) (pre : Tensor) (n : nat) (s : Sum)
    (w : Tensor) :
  normalized_weights head pre n s = Ok w ->
  shape w = weight_shape n s
  /\ (exists out raw, linear_forward head pre = Ok out
        /\ view out (weight_shape n s) = Ok raw /\ log_softmax raw 2 = Ok w)
  /\ ((0 < in_channels s)%nat -> sums_to_one w (in_channels s)).
Proof.
  unfold normalized_weights. intros H. bind_inv H.
  pose proof (view_shape _ _ _ Ha0) as Hraw.
  split; [|split].
  - rewrite (log_softmax_shape _ _ _ H). exact Hraw.
  - eauto.
  - intros Hic. eapply log_softmax_sums_to_one; eauto.
Qed.

(** The loop hands head [i + k] to the [k]-th [Sum] layer, keeps every other
    layer's place and returns the number of the root's head. *)
Lemma set_inner_weights_Ok (heads : list Linear) (pre : Tensor) (n : nat)
    (layers : list Layer) :
  forall (i : nat) (layers' : list Layer) (j : nat),
    set_inner_weights heads pre n layers i = Ok (layers', j) ->
    j = i + length (sums layers)
    /\ map sizes (sums layers') = map sizes (sums layers)
    /\ forall (k : nat) (s' : Sum),
         sums layers' !! k = Some s' ->
         exists s head w,
           sums layers !! k = Some s /\ heads !! (i + k) = Some head
           /\ normalized_weights head pre n s = Ok w
           /\ s' = set_weight_param s w.
Proof.
  induction layers as [|[s|c] rest IH]; intros i layers' j H; simpl in H.
  - inversion H; subst. simpl. split; [lia|]. split; [reflexivity|].
    intros k s' Hk. destruct k; discriminate.
  - bind_inv H. destruct a1 as [rest' j']. simpl in H. inversion H; subst.
    destruct (IH _ _ _ Ha1) as (Hj & Hsz & Hall). simpl.
    split; [lia|]. split; [f_equal; exact Hsz|].
    intros [|k] s' Hk; simpl in Hk.
    + inversion Hk; subst. exists s, a, a0. rewrite Nat.add_0_r.
      unfold head_at in Ha. destruct (heads !! i) eqn:E; inversion Ha; subst.
      auto.
    + destruct (Hall k s' Hk) as (s0 & h & w & ? & ? & ? & ?).
      exists s0, h, w. replace (i + S k) with (S i + k) by lia. auto.
  - bind_inv H. destruct a as [rest' j']. simpl in H. inversion H; subst.
    destruct (IH _ _ _ Ha) as (Hj & Hsz & Hall). simpl. auto.
Qed.

(** A successful [set_params], step by step. *)
Lemma set_params_Ok (self self' : CSPN) (x : Tensor) :
  set_params self x = Ok self' ->
  exists n feats pre layers i head wroot c dpre mout m sout s,
    shape x !! 0 = Some n
    /\ (sequential (feat_layers self) x ≫= flatten1) = Ok feats
    /\ sequential (sum_layers self) feats = Ok pre
    /\ set_inner_weights (sum_param_heads self) pre n (inner_layers self) 0
       = Ok (layers, i)
    /\ sum_param_heads self !! i = Some head
    /\ normalized_weights head pre n (root self) = Ok wroot
    /\ one_over (CspnConfig.C (config self)) = Ok c
    /\ sequential (dist_layers self) feats = Ok dpre
    /\ linear_forward (dist_mean_head self) dpre = Ok mout
    /\ view mout (dist_param_shape self n) = Ok m
    /\ linear_forward (dist_std_head self) dpre = Ok sout
    /\ view sout (dist_param_shape self n) = Ok s
    /\ self' =
       mkCSPN (config self) layers
         (set_weight_param (root self) wroot)
         (set_weight_param (sampling_root self)
            (log_ (mul_ (ones [n; 1; 1; 1; 1]%nat) c)))
         (set_leaf_params (base_leaf self)
            (bounded_means (base_leaf self) m) (bounded_stds (base_leaf self) s))
         (feat_layers self) (sum_layers self) (sum_param_heads self)
         (dist_layers self) (dist_mean_head self) (dist_std_head self).
Proof.
  unfold set_params. intros H. bind_inv H.
  destruct a3 as [layers i]. bind_inv H.
  apply shape_at_Ok in Ha.
  unfold head_at in Ha4.
  destruct (sum_param_heads self !! i) as [head|] eqn:Eh; inversion Ha4; subst.
  exists a, a1, a2, layers, i, a3, a4, a5, a6, a7, a8, a9, a10.
  repeat split; try assumption.
  - rewrite Ha0. exact Ha1.
  - inversion H. reflexivity.
Qed.

(** ** Sum-node and root weights (C1) *)

(** C1.  After a successful [set_params] on a conditioning batch of [N]
    vectors, the inner layers are the same layers with the same sizes, and
    every [Sum] inner layer as well as the root holds a weight tensor of shape
    [(N, in_features, in_channels, out_channels, num_repetitions)] that is the
    log-softmax over axis 2 of the reshaped output of its head; for a layer
    with at least one input channel the exponentiated weights add up to one
    over the input channels, for every weight set, feature, output channel
    and repetition. *)
Theorem set_params_sum_weights (self self' : CSPN) (x : Tensor) (N : nat) :
  set_params self x = Ok self' ->
  shape x !! 0 = Some N ->
  map sizes (sums (inner_layers self')) = map sizes (sums (inner_layers self))
  /\ sizes (root self') = sizes (root self)
  /\ forall s : Sum,
       s ∈ sums (inner_layers self') \/ s = root self' ->
       shape (weight_param s) = weight_shape N s
       /\ (exists raw, shape raw = weight_shape N s
             /\ log_softmax raw 2 = Ok (weight_param s))
       /\ ((0 < in_channels s)%nat -> sums_to_one (weight_param s) (in_channels s)).
Proof.
  intros H HN.
  destruct (set_params_Ok _ _ _ H)
    as (n & feats & pre & layers & i & head & wroot & c & dpre & mout & m
        & sout & s0 & Hn & _ & _ & Hloop & _ & Hroot & _ & _ & _ & _ & _ & _ & ->).
  assert (n = N) by congruence. subst n. simpl.
  destruct (set_inner_weights_Ok _ _ _ _ _ _ _ Hloop) as (_ & Hsz & Hall).
  split; [exact Hsz|]. split; [reflexivity|].
  assert (Hone : forall h s w, normalized_weights h pre N s = Ok w ->
            shape (weight_param (set_weight_param s w))
            = weight_shape N (set_weight_param s w)
            /\ (exists raw, shape raw = weight_shape N (set_weight_param s w)
                  /\ log_softmax raw 2 = Ok (weight_param (set_weight_param s w)))
            /\ ((0 < in_channels (set_weight_param s w))%nat ->
                sums_to_one (weight_param (set_weight_param s w))
                  (in_channels (set_weight_param s w)))).
  { intros h s w Hw. simpl.
    destruct (normalized_weights_Ok _ _ _ _ _ Hw)
      as (Hsh & (out & raw & _ & Hv & Hl) & Hs).
    split; [exact Hsh|]. split; [|exact Hs].
    exists raw. split; [exact (view_shape _ _ _ Hv) | exact Hl]. }
  intros s [Hin | ->].
  - apply list_elem_of_lookup in Hin. destruct Hin as [k Hk].
    destruct (Hall k s Hk) as (s1 & h & w & _ & _ & Hw & ->).
    exact (Hone h s1 w Hw).
  - exact (Hone head (root self) wroot Hroot).
Qed.

(** The example circuit: its one [Sum] layer and its root after injection. *)
Lemma set_params_sum_weights_witness :
  set_params (Example.cspn 2) Example.condition = Ok (Example.injected 2)
  /\ shape Example.condition !! 0 = Some 2
  /\ map sizes (sums (inner_layers (Example.injected 2))) = [(1, 4, 2, 1)]
  /\ forall s : Sum,
       s ∈ sums (inner_layers (Example.injected 2))
       \/ s = root (Example.injected 2) ->
       shape (weight_param s) = weight_shape 2 s
       /\ (exists raw, shape raw = weight_shape 2 s
             /\ log_softmax raw 2 = Ok (weight_param s))
       /\ ((0 < in_channels s)%nat -> sums_to_one (weight_param s) (in_channels s)).
Proof.
  split; [reflexivity|]. split; [reflexivity|].
  destruct (set_params_sum_weights (Example.cspn 2) (Example.injected 2)
              Example.condition 2 eq_refl eq_refl) as (Hsz & _ & Hall).
  split; [exact Hsz | exact Hall].
Defined.

(** ** The sampling root (C2) *)

Lemma one_over_Ok (c : nat) (v : R) :
  one_over c = Ok v -> (0 < c)%nat /\ v = (1 / INR c)%R.
Proof.
  unfold one_over. destruct (Nat.eqb_spec c 0); intros H; inversion H.
  split; [lia | reflexivity].
Qed.

(** The tensor that [set_params] assigns to the sampling root. *)
Lemma sampling_root_Ok (self self' : CSPN) (x : Tensor) (N : nat) :
  set_params self x = Ok self' ->
  shape x !! 0 = Some N ->
  (0 < CspnConfig.C (config self))%nat
  /\ weight_param (sampling_root self')
     = log_ (mul_ (ones [N; 1; 1; 1; 1]%nat)
               (1 / INR (CspnConfig.C (config self)))).
Proof.
  intros H HN.
  destruct (set_params_Ok _ _ _ H)
    as (n & feats & pre & layers & i & head & wroot & c & dpre & mout & m
        & sout & s0 & Hn & _ & _ & _ & _ & _ & Hc & _ & _ & _ & _ & _ & ->).
  assert (n = N) by congruence. subst n.
  destruct (one_over_Ok _ _ Hc) as [HC ->]. split; [exact HC | reflexivity].
Qed.

Lemma exp_sampling_entry (N C : nat) (idx : list nat) :
  (0 < C)%nat ->
  exp (entry (log_ (mul_ (ones [N; 1; 1; 1; 1]%nat) (1 / INR C))) idx)
  = (1 / INR C)%R.
Proof.
  intros HC. apply lt_0_INR in HC. simpl. rewrite Rmult_1_l.
  apply exp_ln. apply Rdiv_lt_0_compat; lra.
Qed.

(** C2, as the code has it.  After a successful [set_params] on a batch of
    [N] vectors the number of classes [C] is positive and the sampling root's
    weight tensor has shape [(N, 1, 1, 1, 1)]: its input-channel axis has the
    single position 0, every value is [log (1/C)], and in probability space
    the sum over that axis is [1/C].  Expanded along the input-channel axis to
    [C] positions the tensor gives every position the probability [1/C], and
    these add up to one. *)
Theorem set_params_sampling_root (self self' : CSPN) (x : Tensor) (N : nat) :
  set_params self x = Ok self' ->
  shape x !! 0 = Some N ->
  let C := CspnConfig.C (config self) in
  let w := weight_param (sampling_root self') in
  (0 < C)%nat
  /\ shape w = [N; 1; 1; 1; 1]%nat
  /\ (forall idx, exp (entry w idx) = (1 / INR C)%R)
  /\ (forall n f o r,
        Rsum 1 (fun c => exp (entry w [n; f; c; o; r])) = (1 / INR C)%R)
  /\ (forall n f o r,
        Rsum C (fun c => exp (entry (expand w [N; 1; C; 1; 1]%nat) [n; f; c; o; r]))
        = 1%R).
Proof.
  intros H HN C w.
  destruct (sampling_root_Ok _ _ _ _ H HN) as [HC Hw]. fold C in HC, Hw.
  assert (HCR : (0 < INR C)%R) by (apply lt_0_INR; exact HC).
  assert (Hentry : forall idx, exp (entry w idx) = (1 / INR C)%R).
  { intros idx. subst w. rewrite Hw. apply exp_sampling_entry, HC. }
  split; [exact HC|]. split; [subst w; rewrite Hw; reflexivity|].
  split; [exact Hentry|]. split.
  - intros a f o r. simpl. rewrite Hentry. lra.
  - intros a f o r.
    rewrite (Rsum_ext C _ (fun _ => (1 / INR C)%R)).
    + rewrite Rsum_const. field. lra.
    + intros k _. unfold expand. simpl. apply Hentry.
Qed.

(** The example circuit with two classes and a batch of two conditions. *)
Lemma set_params_sampling_root_witness :
  set_params (Example.cspn 2) Example.condition = Ok (Example.injected 2)
  /\ shape Example.condition !! 0 = Some 2
  /\ shape (weight_param (sampling_root (Example.injected 2))) = [2; 1; 1; 1; 1]%nat
  /\ forall n f o r,
       Rsum 1 (fun c => exp (entry (weight_param (sampling_root (Example.injected 2)))
                               [n; f; c; o; r]))
       = (1 / INR 2)%R.
Proof.
  split; [reflexivity|]. split; [reflexivity|].
  destruct (set_params_sampling_root (Example.cspn 2) (Example.injected 2)
              Example.condition 2 eq_refl eq_refl) as (_ & Hsh & _ & Hsum & _).
  split; [exact Hsh | exact Hsum].
Defined.

(** With two classes the sampling root's tensor has one position on its
    input-channel axis, not two, and its sum over that axis in probability
    space is one half. *)
Lemma sampling_root_sum_not_one :
  set_params (Example.cspn 2) Example.condition = Ok (Example.injected 2)
  /\ CspnConfig.C (config (Example.injected 2)) = 2%nat
  /\ shape (weight_param (sampling_root (Example.injected 2))) !! 2 = Some 1%nat
  /\ ~ sums_to_one (weight_param (sampling_root (Example.injected 2))) 1.
Proof.
  split; [reflexivity|]. split; [reflexivity|]. split; [reflexivity|].
  intros Hone. specialize (Hone 0%nat 0%nat 0%nat 0%nat).
  destruct (sampling_root_Ok (Example.cspn 2) (Example.injected 2)
              Example.condition 2 eq_refl eq_refl) as [HC Hw].
  rewrite Hw in Hone. simpl in Hone.
  rewrite Rmult_1_l, exp_ln in Hone by lra. lra.
Qed.

(** ** Construction of the feature extractor (C3) *)

(** A conditioning shape of three dimensions stops the construction at the
    [assert False] of its branch. *)
Lemma create_feat_layers_3d (init : Init) (b : RatSpn) (c h w : nat) :
  create_feat_layers init b [c; h; w] = Raise AssertionError.
Proof. reflexivity. Qed.

(** For a flat conditioning shape and no configured widths the feature
    extractor is the identity, and the construction succeeds. *)
Lemma create_feat_layers_1d_identity (init : Init) (b : RatSpn) (d : nat) :
  CspnConfig.feat_layers (spn_config b) = [] ->
  exists m, create_feat_layers init b [d] = Ok m /\ feat_layers m = [Identity].
Proof.
  intros Hcfg. unfold create_feat_layers. rewrite Hcfg. simpl.
  eexists. split; reflexivity.
Qed.

(** C3, as the code has it.  When the configured conditioning shape has the
    three dimensions (channels, rows, columns), [create_feat_layers] and with
    it the construction of the CSPN raise an [AssertionError]; no feature
    extractor is built. *)
Theorem CSPN_init_3d_fails (init : Init) (b : RatSpn) (c h w : nat) :
  CspnConfig.F_cond (spn_config b) = [c; h; w] ->
  create_feat_layers init (replace_layer_params b) [c; h; w]
  = Raise AssertionError
  /\ CSPN_init init b = Raise AssertionError.
Proof.
  intros HF. split; [apply create_feat_layers_3d|].
  unfold CSPN_init. simpl. rewrite HF. apply create_feat_layers_3d.
Qed.

(** The example circuit configured for images of shape (3, 32, 32). *)
Lemma CSPN_init_3d_fails_witness :
  CspnConfig.F_cond (spn_config (Example.base_for [3; 32; 32]%nat 2))
  = [3; 32; 32]%nat
  /\ CSPN_init Example.init0 (Example.base_for [3; 32; 32]%nat 2)
     = Raise AssertionError.
Proof.
  split; [reflexivity|].
  exact (proj2 (CSPN_init_3d_fails Example.init0
                  (Example.base_for [3; 32; 32]%nat 2) 3 32 32 eq_refl)).
Defined.

(** The construction for the image shape (3, 32, 32) does not succeed. *)
Lemma CSPN_init_image_shape_raises :
  length (CspnConfig.F_cond (spn_config (Example.base_for [3; 32; 32]%nat 2))) = 3%nat
  /\ ~ exists m,
         CSPN_init Example.init0 (Example.base_for [3; 32; 32]%nat 2) = Ok m.
Proof.
  split; [reflexivity|]. intros [m Hm]. discriminate Hm.
Qed.

(** ** Idempotence of the injection (C4) *)

(** The loop reads a layer's sizes and never its weights: run on its own
    result it produces that result again. *)
Lemma set_inner_weights_again (heads : list Linear) (pre : Tensor) (n : nat)
    (layers : list Layer) :
  forall (i : nat) (layers' : list Layer) (j : nat),
    set_inner_weights heads pre n layers i = Ok (layers', j) ->
    set_inner_weights heads pre n layers' i = Ok (layers', j).
Proof.
  induction layers as [|[s|c] rest IH]; intros i layers' j H; simpl in H.
  - inversion H; subst. reflexivity.
  - bind_inv H. destruct a1 as [rest' j']. simpl in H. inversion H; subst.
    simpl. rewrite Ha. simpl.
    change (normalized_weights a pre n (set_weight_param s a0))
      with (normalized_weights a pre n s).
    rewrite Ha0. simpl. rewrite (IH _ _ _ Ha1). reflexivity.
  - bind_inv H. destruct a as [rest' j']. simpl in H. inversion H; subst.
    simpl. rewrite (IH _ _ _ Ha). reflexivity.
Qed.

(** C4.  A second [set_params] with the same conditioning tensor succeeds
    and leaves the circuit exactly as the first one left it: every sum-layer
    weight, the root and sampling-root weights and the leaf's means and
    standard deviations are the same tensors.  The injection draws no random
    numbers, so the statement needs no assumption on the training mode. *)
Theorem set_params_idempotent (self self' : CSPN) (x : Tensor) :
  set_params self x = Ok self' ->
  set_params self' x = Ok self'.
Proof.
  intros H. unfold set_params in H. bind_inv H.
  destruct a3 as [layers i]. bind_inv H. inversion H; subst self'; clear H.
  unfold set_params. simpl.
  rewrite Ha. simpl. rewrite Ha0. simpl. rewrite Ha1. simpl.
  rewrite Ha2. simpl. rewrite (set_inner_weights_again _ _ _ _ _ _ _ Ha3).
  simpl. rewrite Ha4. simpl.
  change (normalized_weights a3 a2 a (set_weight_param (root self) a4))
    with (normalized_weights a3 a2 a (root self)).
  rewrite Ha5. simpl. rewrite Ha6. simpl. rewrite Ha7. simpl.
  rewrite Ha8. simpl. rewrite Ha9. simpl. rewrite Ha10. simpl.
  rewrite Ha11. simpl. reflexivity.
Qed.

(** The example circuit injected twice with the same batch. *)
Lemma set_params_idempotent_witness :
  set_params (Example.cspn 2) Example.condition = Ok (Example.injected 2)
  /\ set_params (Example.injected 2) Example.condition = Ok (Example.injected 2).
Proof.
  split; [reflexivity|].
  exact (set_params_idempotent (Example.cspn 2) (Example.injected 2)
           Example.condition eq_refl).
Defined.

(** ** The facade's checks on the data and on the class index (C5, C9, C10) *)

Section FacadeFacts.
Context {Kwargs Out : Type}.
Variable super_forward : CSPN -> Tensor -> Kwargs -> Res Out.
Variable super_sample :
  CSPN -> option string -> option (list nat) -> option Tensor -> Kwargs
  -> Res Out.

(** [forward] once the condition, if any, has been injected and the number
    of weight sets has been read. *)
Lemma forward_after_inject (self self1 : CSPN) (x : Tensor)
    (condition : option Tensor) (kwargs : Kwargs) (W : nat) :
  inject self condition = Ok self1 ->
  shape (means (base_leaf self1)) !! 0 = Some W ->
  forward super_forward self x condition kwargs
  = if dim x =? 3 then
      n ← shape_at x 1; _ ← assert (n =? W); super_forward self1 x kwargs
    else if dim x =? 2 then
      n ← shape_at x 0; _ ← assert (n =? W);
      super_forward self1 (unsqueeze0 x) kwargs
    else super_forward self1 x kwargs.
Proof.
  intros Hin HW. unfold forward. rewrite Hin. simpl.
  apply shape_at_Ok in HW. rewrite HW. reflexivity.
Qed.

Lemma checked_axis (x : Tensor) (i n W : nat) (k : Res Out) :
  shape x !! i = Some n ->
  (m ← shape_at x i; _ ← assert (m =? W); k)
  = if n =? W then k else Raise AssertionError.
Proof.
  intros Hn. apply shape_at_Ok in Hn. rewrite Hn. simpl.
  destruct (n =? W); reflexivity.
Qed.

(** C5.  Let [W] be the number of weight sets held by the circuit once the
    condition, if one is given, has been injected.  For data [x] of three
    dimensions the call raises an [AssertionError] when [x.shape[1]] is not
    [W], so it returns only if they are equal, and it then is the base
    circuit's forward on [x]; for data of two dimensions it raises an
    [AssertionError] when [x.shape[0]] is not [W], returns only if they are
    equal, and then is the base circuit's forward on [x] with a leading axis
    of size one. *)
Theorem forward_shape_contract (self self1 : CSPN) (x : Tensor)
    (condition : option Tensor) (kwargs : Kwargs) (W n : nat) :
  inject self condition = Ok self1 ->
  shape (means (base_leaf self1)) !! 0 = Some W ->
  (dim x = 3%nat -> shape x !! 1 = Some n ->
     (n <> W ->
      forward super_forward self x condition kwargs = Raise AssertionError)
     /\ (forall r, forward super_forward self x condition kwargs = Ok r -> n = W)
     /\ (n = W ->
         forward super_forward self x condition kwargs
         = super_forward self1 x kwargs))
  /\ (dim x = 2%nat -> shape x !! 0 = Some n ->
        (n <> W ->
         forward super_forward self x condition kwargs = Raise AssertionError)
        /\ (forall r,
              forward super_forward self x condition kwargs = Ok r -> n = W)
        /\ (n = W ->
            forward super_forward self x condition kwargs
            = super_forward self1 (unsqueeze0 x) kwargs
            /\ shape (unsqueeze0 x) = 1%nat :: shape x)).
Proof.
  intros Hin HW.
  rewrite (forward_after_inject _ _ x _ kwargs _ Hin HW).
  split; intros Hd Hn; rewrite Hd; simpl; rewrite (checked_axis _ _ _ W _ Hn);
    destruct (Nat.eqb_spec n W) as [HnW | HnW];
    (split; [intros ?|split; [intros r Hr|intros ?]]);
    try reflexivity; try congruence; auto.
Qed.

(** C9.  With a condition and a class-index list, and the condition's
    injection successful: the call raises an [AssertionError] when the
    length of the list is not the batch size of the condition, so it returns
    only if they are equal, and it then is the base circuit's [sample] with
    that class index on the freshly injected circuit. *)
Theorem sample_class_index_contract (self self1 : CSPN) (mode : option string)
    (condition : Tensor) (class_index : list nat) (evidence : option Tensor)
    (kwargs : Kwargs) (N : nat) :
  set_params self condition = Ok self1 ->
  shape condition !! 0 = Some N ->
  (N <> length class_index ->
   sample super_sample self mode (Some condition) (Some class_index) evidence
     kwargs = Raise AssertionError)
  /\ (forall r,
        sample super_sample self mode (Some condition) (Some class_index)
          evidence kwargs = Ok r ->
        N = length class_index)
  /\ (N = length class_index ->
      sample super_sample self mode (Some condition) (Some class_index)
        evidence kwargs
      = super_sample self1 mode (Some class_index) evidence kwargs).
Proof.
  intros Hset HN. unfold sample. simpl. rewrite Hset. simpl.
  apply shape_at_Ok in HN. rewrite HN. simpl.
  destruct (Nat.eqb_spec N (length class_index)) as [H | H]; simpl;
    (split; [intros ?|split; [intros r Hr|intros ?]]);
    try reflexivity; try congruence; auto.
Qed.

(** A call with a condition and a class index that returns has passed the
    injection and the length check. *)
Lemma sample_class_index_Ok (self : CSPN) (mode : option string)
    (condition : Tensor) (class_index : list nat) (evidence : option Tensor)
    (kwargs : Kwargs) (r : Out) :
  sample super_sample self mode (Some condition) (Some class_index) evidence
    kwargs = Ok r ->
  exists self1,
    set_params self condition = Ok self1
    /\ shape condition !! 0 = Some (length class_index)
    /\ super_sample self1 mode (Some class_index) evidence kwargs = Ok r.
Proof.
  unfold sample. simpl. intros H. bind_inv H. bind_inv Ha0.
  apply shape_at_Ok in Ha1. apply assert_Ok, Nat.eqb_eq in Ha0. subst.
  eauto.
Qed.

(** C10.  With a class-index list and no condition the call raises an
    [AttributeError], whatever parameters the circuit holds and whatever
    the length of the list; the base circuit's [sample] is not reached. *)
Theorem sample_class_index_needs_condition (self : CSPN)
    (mode : option string) (class_index : list nat)
    (evidence : option Tensor) (kwargs : Kwargs) :
  sample super_sample self mode None (Some class_index) evidence kwargs
  = Raise AttributeError.
Proof. reflexivity. Qed.
End FacadeFacts.

(** A failed injection is the failure of the whole call. *)
Lemma forward_inject_raises {Kwargs Out : Type}
    (super_forward : CSPN -> Tensor -> Kwargs -> Res Out)
    (self : CSPN) (x : Tensor) (condition : option Tensor) (kwargs : Kwargs)
    (e : Exn) :
  inject self condition = Raise e ->
  forward super_forward self x condition kwargs = Raise e.
Proof. intros H. unfold forward. rewrite H. reflexivity. Qed.

(** Two data rows against two injected weight sets are accepted and
    unsqueezed. *)
Lemma forward_shape_contract_witness :
  inject (Example.cspn 2) (Some Example.condition) = Ok (Example.injected 2)
  /\ shape (means (base_leaf (Example.injected 2))) !! 0 = Some 2%nat
  /\ dim (ones [2; 5]%nat) = 2%nat
  /\ forward echo_forward (Example.cspn 2) (ones [2; 5]%nat)
       (Some Example.condition) tt
     = Ok (unsqueeze0 (ones [2; 5]%nat)).
Proof.
  split; [reflexivity|]. split; [reflexivity|]. split; [reflexivity|].
  destruct (forward_shape_contract echo_forward (Example.cspn 2)
              (Example.injected 2) (ones [2; 5]%nat) (Some Example.condition)
              tt 2 2 eq_refl eq_refl) as [_ H2].
  destruct (H2 eq_refl eq_refl) as (_ & _ & Hok).
  exact (proj1 (Hok eq_refl)).
Defined.

(** Three data rows against two injected weight sets are rejected. *)
Example forward_rejects_three_rows :
  forward echo_forward (Example.cspn 2) (ones [3; 5]%nat)
    (Some Example.condition) tt
  = Raise AssertionError.
Proof. reflexivity. Qed.

(** Two class indices with a batch of two conditions are accepted. *)
Lemma sample_class_index_contract_witness :
  set_params (Example.cspn 2) Example.condition = Ok (Example.injected 2)
  /\ shape Example.condition !! 0 = Some 2%nat
  /\ sample echo_sample (Example.cspn 2) (Some "index"%string)
       (Some Example.condition) (Some [0; 1]%nat) None tt
     = echo_sample (Example.injected 2) (Some "index"%string)
         (Some [0; 1]%nat) None tt.
Proof.
  split; [reflexivity|]. split; [reflexivity|].
  exact (proj2 (proj2 (sample_class_index_contract echo_sample
                         (Example.cspn 2) (Example.injected 2)
                         (Some "index"%string) Example.condition [0; 1]%nat
                         None tt 2 eq_refl eq_refl)) eq_refl).
Defined.

(** A class-index list of three entries against a batch of two conditions is
    rejected. *)
Example sample_rejects_three_classes :
  sample echo_sample (Example.cspn 2) None (Some Example.condition)
    (Some [0; 1; 0]%nat) None tt
  = Raise AssertionError.
Proof. reflexivity. Qed.

(** With two weight sets injected and two class indices, a call without a
    condition still raises. *)
Example sample_after_injection_without_condition :
  length [0; 1]%nat = 2%nat
  /\ shape (means (base_leaf (Example.injected 2))) !! 0 = Some 2%nat
  /\ sample echo_sample (Example.injected 2) None None (Some [0; 1]%nat) None tt
     = Raise AttributeError.
Proof. repeat split. Qed.

(** ** Clearing the parameters (C6) *)





(** ** The leaf's parameters (C7) *)



(** ** The two injection routines compared (C8) *)

(** The normalized weights of the primary variant are the log-softmax of the
    raw weights that the layerwise variant assigns. *)
Lemma normalized_of_raw (head : Linear) (pre : Tensor) (n : nat) (s : Sum) :
  normalized_weights head pre n s
  = (Layerwise.raw_weights head pre n s ≫= fun raw => log_softmax raw 2).
Proof.
  unfold normalized_weights, Layerwise.raw_weights.
  destruct (linear_forward head pre); reflexivity.
Qed.

Lemma inner_weights_related (heads : list Linear) (pre : Tensor) (n : nat)
    (layers : list Layer) :
  forall (i : nat) (l1 l2 : list Layer) (j1 j2 : nat),
    set_inner_weights heads pre n layers i = Ok (l1, j1) ->
    Layerwise.set_inner_weights heads pre n layers i = Ok (l2, j2) ->
    j1 = j2 /\ Forall2 normalizes (sums l1) (sums l2).
Proof.
  induction layers as [|[s|c] rest IH]; intros i l1 l2 j1 j2 H1 H2;
    simpl in H1, H2.
  - inversion H1; inversion H2; subst. split; [reflexivity | constructor].
  - bind_inv H1. bind_inv H2.
    destruct a1 as [r1 k1]. destruct a4 as [r2 k2]. simpl in H1, H2.
    inversion H1; inversion H2; subst.
    assert (a = a2) by congruence. subst a2.
    destruct (IH _ _ _ _ _ Ha1 Ha4) as [-> Hrest].
    split; [reflexivity|]. simpl. constructor; [|exact Hrest].
    split; [reflexivity|]. simpl.
    rewrite normalized_of_raw, Ha3 in Ha0. exact Ha0.
  - bind_inv H1. bind_inv H2.
    destruct a as [r1 k1]. destruct a0 as [r2 k2]. simpl in H1, H2.
    inversion H1; inversion H2; subst.
    exact (IH _ _ _ _ _ Ha Ha0).
Qed.

(** The layerwise loop assigns to the [k]-th [Sum] layer the reshaped output
    of head [i + k], as it is. *)
Lemma layerwise_inner_weights_Ok (heads : list Linear) (pre : Tensor) (n : nat)
    (layers : list Layer) :
  forall (i : nat) (layers' : list Layer) (j : nat),
    Layerwise.set_inner_weights heads pre n layers i = Ok (layers', j) ->
    j = i + length (sums layers)
    /\ forall (k : nat) (s' : Sum),
         sums layers' !! k = Some s' ->
         exists s head out,
           sums layers !! k = Some s /\ heads !! (i + k) = Some head
           /\ linear_forward head pre = Ok out
           /\ view out (weight_shape n s) = Ok (weight_param s').
Proof.
  induction layers as [|[s|c] rest IH]; intros i layers' j H; simpl in H.
  - inversion H; subst. simpl. split; [lia|].
    intros k s' Hk. destruct k; discriminate.
  - bind_inv H. destruct a1 as [rest' j']. simpl in H. inversion H; subst.
    destruct (IH _ _ _ Ha1) as [Hj Hall]. simpl. split; [lia|].
    intros [|k] s' Hk; simpl in Hk.
    + inversion Hk; subst. unfold Layerwise.raw_weights in Ha0. bind_inv Ha0.
      unfold head_at in Ha. destruct (heads !! i) eqn:E; inversion Ha; subst.
      exists s, a, a1. rewrite Nat.add_0_r. auto.
    + destruct (Hall k s' Hk) as (s0 & h & out & ? & ? & ? & ?).
      exists s0, h, out. replace (i + S k) with (S i + k) by lia. auto.
  - bind_inv H. destruct a as [rest' j']. simpl in H. inversion H; subst.
    simpl. exact (IH _ _ _ Ha).
Qed.

(** A successful [compute_weights], step by step. *)
Lemma compute_weights_Ok (self self' : CSPN) (x : Tensor) :
  Layerwise.compute_weights self x = Ok self' ->
  exists n feats pre layers i head wroot dpre mout m sout s,
    shape x !! 0 = Some n
    /\ (sequential (feat_layers self) x ≫= flatten1) = Ok feats
    /\ sequential (sum_layers self) feats = Ok pre
    /\ Layerwise.set_inner_weights (sum_param_heads self) pre n
         (inner_layers self) 0 = Ok (layers, i)
    /\ sum_param_heads self !! i = Some head
    /\ Layerwise.raw_weights head pre n (root self) = Ok wroot
    /\ sequential (dist_layers self) feats = Ok dpre
    /\ linear_forward (dist_mean_head self) dpre = Ok mout
    /\ view mout (dist_param_shape self n) = Ok m
    /\ linear_forward (dist_std_head self) dpre = Ok sout
    /\ view sout (dist_param_shape self n) = Ok s
    /\ self' =
       mkCSPN (config self) layers
         (set_weight_param (root self) wroot) (sampling_root self)
         (set_leaf_params (base_leaf self) m s)
         (feat_layers self) (sum_layers self) (sum_param_heads self)
         (dist_layers self) (dist_mean_head self) (dist_std_head self).
Proof.
  unfold Layerwise.compute_weights. intros H. bind_inv H.
  destruct a3 as [layers i]. bind_inv H.
  apply shape_at_Ok in Ha.
  unfold head_at in Ha4.
  destruct (sum_param_heads self !! i) as [head|] eqn:Eh; inversion Ha4; subst.
  exists a, a1, a2, layers, i, a3, a4, a5, a6, a7, a8, a9.
  repeat split; try assumption.
  - rewrite Ha0. exact Ha1.
  - inversion H. reflexivity.
Qed.

(** On the same circuit and condition, what [set_params] assigns is the
    log-softmax, respectively the bounding, of what [compute_weights]
    assigns. *)
Lemma set_params_of_compute_weights (self s1 s2 : CSPN) (x : Tensor) :
  set_params self x = Ok s1 ->
  Layerwise.compute_weights self x = Ok s2 ->
  Forall2 normalizes (sums (inner_layers s1)) (sums (inner_layers s2))
  /\ normalizes (root s1) (root s2)
  /\ mean_param (base_leaf s1)
     = bounded_means (base_leaf self) (mean_param (base_leaf s2))
  /\ std_param (base_leaf s1)
     = bounded_stds (base_leaf self) (std_param (base_leaf s2)).
Proof.
  intros H1 H2.
  destruct (set_params_Ok _ _ _ H1)
    as (n & feats & pre & layers & i & head & wroot & c & dpre & mout & m
        & sout & s & Hn & Hf & Hp & Hloop & Hh & Hroot & _ & Hd & Hmo & Hm
        & Hso & Hs & ->).
  destruct (compute_weights_Ok _ _ _ H2)
    as (n' & feats' & pre' & layers' & i' & head' & wroot' & dpre' & mout'
        & m' & sout' & s' & Hn' & Hf' & Hp' & Hloop' & Hh' & Hroot' & Hd'
        & Hmo' & Hm' & Hso' & Hs' & ->).
  assert (n' = n) by congruence. subst n'.
  assert (feats' = feats) by congruence. subst feats'.
  assert (pre' = pre) by congruence. subst pre'.
  assert (dpre' = dpre) by congruence. subst dpre'.
  assert (mout' = mout) by congruence. subst mout'.
  assert (sout' = sout) by congruence. subst sout'.
  assert (m' = m) by congruence. subst m'.
  assert (s' = s) by congruence. subst s'.
  destruct (inner_weights_related _ _ _ _ _ _ _ _ _ Hloop Hloop') as [-> Hall].
  assert (head' = head) by congruence. subst head'.
  simpl. split; [exact Hall|]. split; [|split; reflexivity].
  split; [reflexivity|]. simpl.
  rewrite normalized_of_raw, Hroot' in Hroot. exact Hroot.
Qed.

(** What [compute_weights] assigns: the reshaped head outputs as they are,
    and nothing to the sampling root. *)
Lemma compute_weights_assigns_raw (self s2 : CSPN) (x : Tensor) :
  Layerwise.compute_weights self x = Ok s2 ->
  exists n feats pre dpre mout sout,
    shape x !! 0 = Some n
    /\ (sequential (feat_layers self) x ≫= flatten1) = Ok feats
    /\ sequential (sum_layers self) feats = Ok pre
    /\ sequential (dist_layers self) feats = Ok dpre
    /\ (forall (k : nat) (s' : Sum),
          sums (inner_layers s2) !! k = Some s' ->
          exists s head out,
            sums (inner_layers self) !! k = Some s
            /\ sum_param_heads self !! k = Some head
            /\ linear_forward head pre = Ok out
            /\ view out (weight_shape n s) = Ok (weight_param s'))
    /\ (exists head out,
          sum_param_heads self !! length (sums (inner_layers self)) = Some head
          /\ linear_forward head pre = Ok out
          /\ view out (weight_shape n (root self)) = Ok (weight_param (root s2)))
    /\ linear_forward (dist_mean_head self) dpre = Ok mout
    /\ view mout (dist_param_shape self n) = Ok (mean_param (base_leaf s2))
    /\ linear_forward (dist_std_head self) dpre = Ok sout
    /\ view sout (dist_param_shape self n) = Ok (std_param (base_leaf s2))
    /\ sampling_root s2 = sampling_root self.
Proof.
  intros H2.
  destruct (compute_weights_Ok _ _ _ H2)
    as (n & feats & pre & layers & i & head & wroot & dpre & mout
        & m & sout & s & Hn & Hf & Hp & Hloop & Hh & Hroot & Hd
        & Hmo & Hm & Hso & Hs & ->).
  destruct (layerwise_inner_weights_Ok _ _ _ _ _ _ _ Hloop) as [-> Hall].
  exists n, feats, pre, dpre, mout, sout. simpl.
  split; [exact Hn|]. split; [exact Hf|]. split; [exact Hp|].
  split; [exact Hd|]. split; [exact Hall|]. split; [|auto].
  unfold Layerwise.raw_weights in Hroot. bind_inv Hroot.
  exists head, a. auto.
Qed.

(** On the example circuit, whose heads all return zero, the root weights
    are [- log 2] in the primary variant and 0 in the layerwise one, and the
    standard deviations are [exp 0 = 1] and 0. *)
Lemma example_variants_differ :
  set_params (Example.cspn 2) Example.condition = Ok (Example.injected 2)
  /\ Layerwise.compute_weights (Example.cspn 2) Example.condition
     = Ok (Example.raw 2)
  /\ weight_param (root (Example.injected 2))
     <> weight_param (root (Example.raw 2))
  /\ std_param (base_leaf (Example.injected 2))
     <> std_param (base_leaf (Example.raw 2)).
Proof.
  split; [reflexivity|]. split; [reflexivity|]. split; intros E.
  - apply (f_equal (fun t => entry t [0; 0; 0; 0; 0]%nat)) in E.
    simpl in E.
    replace (0 + 1 * 0 + 1 * 0 + 1 * 0 + 0)%R with 0%R in E by lra.
    rewrite exp_0 in E.
    assert (Hln : (ln 1 < ln (0 + 1 + 1))%R) by (apply ln_increasing; lra).
    rewrite ln_1 in Hln. lra.
  - apply (f_equal (fun t => entry t [0; 0; 0; 0]%nat)) in E.
    simpl in E.
    replace (0 + 1 * 0 + 1 * 0 + 1 * 0 + 0)%R with 0%R in E by lra.
    rewrite exp_0 in E. lra.
Qed.

(** C8.  The two injection routines differ.  On the same circuit and
    condition, hence on the same head outputs, [compute_weights] of the
    layerwise variant assigns the reshaped head outputs as they are to the
    sum-weight and leaf slots, while [set_params] of the primary variant
    assigns their log-softmax over the input channels to the sum-weight slots
    and their bounded values to the leaf slots; on the example circuit the
    resulting root weights and standard deviations are different tensors. *)
Theorem injection_variants_differ :
  (forall (self s1 s2 : CSPN) (x : Tensor),
     set_params self x = Ok s1 ->
     Layerwise.compute_weights self x = Ok s2 ->
     Forall2 normalizes (sums (inner_layers s1)) (sums (inner_layers s2))
     /\ normalizes (root s1) (root s2)
     /\ mean_param (base_leaf s1)
        = bounded_means (base_leaf self) (mean_param (base_leaf s2))
     /\ std_param (base_leaf s1)
        = bounded_stds (base_leaf self) (std_param (base_leaf s2)))
  /\ (forall (self s2 : CSPN) (x : Tensor),
        Layerwise.compute_weights self x = Ok s2 ->
        exists n feats pre dpre mout sout,
          shape x !! 0 = Some n
          /\ (sequential (feat_layers self) x ≫= flatten1) = Ok feats
          /\ sequential (sum_layers self) feats = Ok pre
          /\ sequential (dist_layers self) feats = Ok dpre
          /\ (forall (k : nat) (s' : Sum),
                sums (inner_layers s2) !! k = Some s' ->
                exists s head out,
                  sums (inner_layers self) !! k = Some s
                  /\ sum_param_heads self !! k = Some head
                  /\ linear_forward head pre = Ok out
                  /\ view out (weight_shape n s) = Ok (weight_param s'))
          /\ (exists head out,
                sum_param_heads self !! length (sums (inner_layers self))
                = Some head
                /\ linear_forward head pre = Ok out
                /\ view out (weight_shape n (root self))
                   = Ok (weight_param (root s2)))
          /\ linear_forward (dist_mean_head self) dpre = Ok mout
          /\ view mout (dist_param_shape self n) = Ok (mean_param (base_leaf s2))
          /\ linear_forward (dist_std_head self) dpre = Ok sout
          /\ view sout (dist_param_shape self n) = Ok (std_param (base_leaf s2))
          /\ sampling_root s2 = sampling_root self)
  /\ (exists (self s1 s2 : CSPN) (x : Tensor),
        set_params self x = Ok s1
        /\ Layerwise.compute_weights self x = Ok s2
        /\ weight_param (root s1) <> weight_param (root s2)
        /\ std_param (base_leaf s1) <> std_param (base_leaf s2)).
Proof.
  split; [|split].
  - intros self s1 s2 x. apply set_params_of_compute_weights.
  - intros self s2 x. apply compute_weights_assigns_raw.
  - exists (Example.cspn 2), (Example.injected 2), (Example.raw 2),
      Example.condition.
    exact example_variants_differ.
Qed.

(** ** The injection reads the structure only *)

Lemma set_weight_param_sizes (s t : Sum) (w : Tensor) :
  sizes s = sizes t -> set_weight_param s w = set_weight_param t w.
Proof.
  destruct s, t. unfold sizes, set_weight_param. simpl. intros H.
  inversion H. reflexivity.
Qed.

Lemma normalized_weights_sizes (head : Linear) (pre : Tensor) (n : nat)
    (s t : Sum) :
  sizes s = sizes t ->
  normalized_weights head pre n s = normalized_weights head pre n t.
Proof.
  destruct s, t. unfold sizes, normalized_weights, weight_shape. simpl.
  intros H. inversion H. reflexivity.
Qed.

Lemma set_inner_weights_structure (heads : list Linear) (pre : Tensor) (n : nat)
    (l1 l2 : list Layer) :
  Forall2 same_layer l1 l2 ->
  forall i, set_inner_weights heads pre n l1 i
            = set_inner_weights heads pre n l2 i.
Proof.
  induction 1 as [|a b l1 l2 Hab _ IH]; intros i; [reflexivity|].
  destruct a as [s|c], b as [t|c']; simpl in Hab; try contradiction; simpl.
  - destruct (head_at heads i) as [head|e]; [simpl|reflexivity].
    rewrite (normalized_weights_sizes head pre n s t Hab).
    destruct (normalized_weights head pre n t) as [w|e]; [simpl|reflexivity].
    rewrite IH, (set_weight_param_sizes s t w Hab). reflexivity.
  - rewrite IH. reflexivity.
Qed.

Lemma same_layer_refl (l : Layer) : same_layer l l.
Proof. destruct l; simpl; auto. Qed.

Lemma same_structure_refl (a : CSPN) : same_structure a a.
Proof.
  unfold same_structure. repeat split.
  - induction (inner_layers a); constructor; auto using same_layer_refl.
  - destruct (sampling_root a); reflexivity.
  - destruct (base_leaf a); reflexivity.
Qed.

(** Circuits of the same structure are injected alike, whatever their slots
    hold. *)
Lemma set_params_structure (a b : CSPN) (x : Tensor) :
  same_structure a b -> set_params a x = set_params b x.
Proof.
  intros (Hc & Hl & Hr & Hs & Hb & Hf & Hsl & Hh & Hdl & Hm & Hsd).
  unfold set_params.
  rewrite Hc, Hf, Hsl, Hh, Hdl, Hm, Hsd.
  destruct (shape_at x 0) as [n|e]; [simpl|reflexivity].
  destruct (sequential (feat_layers b) x) as [f0|e]; [simpl|reflexivity].
  destruct (flatten1 f0) as [f|e]; [simpl|reflexivity].
  destruct (sequential (sum_layers b) f) as [pre|e]; [simpl|reflexivity].
  rewrite (set_inner_weights_structure _ _ _ _ _ Hl).
  destruct (set_inner_weights (sum_param_heads b) pre n (inner_layers b) 0)
    as [[layers i]|e]; [simpl|reflexivity].
  destruct (head_at (sum_param_heads b) i) as [head|e]; [simpl|reflexivity].
  rewrite (normalized_weights_sizes head pre n _ _ Hr).
  destruct (normalized_weights head pre n (root b)) as [w|e]; [simpl|reflexivity].
  destruct (one_over (CspnConfig.C (config b))) as [c|e]; [simpl|reflexivity].
  destruct (sequential (dist_layers b) f) as [dpre|e]; [simpl|reflexivity].
  rewrite Hb. simpl.
  destruct (linear_forward (dist_mean_head b) dpre) as [mo|e]; [simpl|reflexivity].
  destruct (view mo _) as [m|e]; [simpl|reflexivity].
  destruct (linear_forward (dist_std_head b) dpre) as [so|e]; [simpl|reflexivity].
  destruct (view so _) as [sd|e]; [simpl|reflexivity].
  rewrite (set_weight_param_sizes _ _ w Hr), Hs. reflexivity.
Qed.

Lemma set_inner_weights_same_layers (heads : list Linear) (pre : Tensor)
    (n : nat) (layers : list Layer) :
  forall (i : nat) (layers' : list Layer) (j : nat),
    set_inner_weights heads pre n layers i = Ok (layers', j) ->
    Forall2 same_layer layers' layers.
Proof.
  induction layers as [|[s|c] rest IH]; intros i layers' j H; simpl in H.
  - inversion H; subst. constructor.
  - bind_inv H. destruct a1 as [rest' j']. simpl in H. inversion H; subst.
    constructor; [reflexivity | exact (IH _ _ _ Ha1)].
  - bind_inv H. destruct a as [rest' j']. simpl in H. inversion H; subst.
    constructor; [exact Logic.I | exact (IH _ _ _ Ha)].
Qed.

(** A successful injection keeps the structure of the circuit. *)
Lemma set_params_same_structure (self self' : CSPN) (x : Tensor) :
  set_params self x = Ok self' -> same_structure self' self.
Proof.
  intros H.
  destruct (set_params_Ok _ _ _ H)
    as (n & feats & pre & layers & i & head & wroot & c & dpre & mout & m
        & sout & s & _ & _ & _ & Hloop & _ & _ & _ & _ & _ & _ & _ & _ & ->).
  unfold same_structure. simpl.
  repeat split. exact (set_inner_weights_same_layers _ _ _ _ _ _ _ Hloop).
Qed.

Lemma clear_layers_structure (l1 l2 : list Layer) :
  Forall2 same_layer l1 l2 -> map clear_layer l1 = map clear_layer l2.
Proof.
  induction 1 as [|a b l1 l2 Hab _ IH]; [reflexivity|]. simpl. rewrite IH.
  f_equal. destruct a as [s|c], b as [t|c']; simpl in Hab; try contradiction;
    [|reflexivity].
  simpl. destruct s, t. unfold sizes in Hab. simpl in Hab. inversion Hab.
  reflexivity.
Qed.

Lemma same_structure_cleared (a : CSPN) : same_structure (clear_params a) a.
Proof.
  unfold same_structure. simpl. repeat split.
  induction (inner_layers a) as [|[s|c] rest IH]; simpl; constructor;
    simpl; auto.
Qed.

(** Circuits of the same structure are cleared to the same circuit. *)
Lemma clear_params_structure (a b : CSPN) :
  same_structure a b -> clear_params a = clear_params b.
Proof.
  intros (Hc & Hl & Hr & Hs & Hb & Hf & Hsl & Hh & Hdl & Hm & Hsd).
  unfold clear_params.
  rewrite Hc, Hf, Hsl, Hh, Hdl, Hm, Hsd, (clear_layers_structure _ _ Hl).
  rewrite Hs, Hb. simpl.
  destruct (root a), (root b). unfold sizes in Hr. simpl in Hr. inversion Hr.
  reflexivity.
Qed.

(** ** Stale parameters never survive (X1, X2) *)

(** X1.  Whatever an earlier injection left in the slots, the next
    [set_params] behaves as on the circuit before that injection: it returns
    the same circuit or raises the same exception, also for a batch of
    another size; and [clear_params] after an injection gives the circuit
    that [clear_params] gives without it. *)
Theorem set_params_overrides (self self1 : CSPN) (x1 x2 : Tensor) :
  set_params self x1 = Ok self1 ->
  set_params self1 x2 = set_params self x2
  /\ clear_params self1 = clear_params self.
Proof.
  intros H. pose proof (set_params_same_structure _ _ _ H) as Hs.
  split; [apply set_params_structure | apply clear_params_structure]; exact Hs.
Qed.

(** X2.  [clear_params] loses nothing that an injection needs: [set_params]
    on the cleared circuit is [set_params] on the circuit itself, and
    clearing twice is clearing once. *)
Theorem clear_params_then_set_params (self : CSPN) (x : Tensor) :
  set_params (clear_params self) x = set_params self x
  /\ clear_params (clear_params self) = clear_params self.
Proof.
  split; [apply set_params_structure | apply clear_params_structure];
    apply same_structure_cleared.
Qed.

(** A batch of five conditions after a batch of two. *)
Lemma set_params_overrides_witness :
  set_params (Example.cspn 2) Example.condition = Ok (Example.injected 2)
  /\ set_params (Example.injected 2) (ones [5; 3]%nat)
     = set_params (Example.cspn 2) (ones [5; 3]%nat)
  /\ clear_params (Example.injected 2) = clear_params (Example.cspn 2).
Proof.
  split; [reflexivity|].
  exact (set_params_overrides (Example.cspn 2) (Example.injected 2)
           Example.condition (ones [5; 3]%nat) eq_refl).
Defined.

(** ** Supplying the condition again (X3, X4, X5) *)

(** Injecting into a freshly injected circuit the condition it was injected
    with changes nothing. *)
Lemma inject_again (self self1 : CSPN) (c : Tensor) :
  set_params self c = Ok self1 -> inject self1 (Some c) = Ok self1.
Proof.
  intros H. simpl.
  rewrite (set_params_structure _ _ c (set_params_same_structure _ _ _ H)).
  exact H.
Qed.

(** X3.  [forward(x, condition=c)] is [set_params(c)] followed by
    [forward(x)]; and once [c] has been injected, passing it again gives
    what [forward(x)] without a condition gives. *)
Theorem forward_condition_redundant {Kwargs Out : Type}
    (super_forward : CSPN -> Tensor -> Kwargs -> Res Out)
    (self self1 : CSPN) (x c : Tensor) (kwargs : Kwargs) :
  set_params self c = Ok self1 ->
  forward super_forward self x (Some c) kwargs
  = forward super_forward self1 x None kwargs
  /\ forward super_forward self1 x (Some c) kwargs
     = forward super_forward self1 x None kwargs.
Proof.
  intros H. split; unfold forward.
  - simpl. rewrite H. reflexivity.
  - rewrite (inject_again _ _ _ H). reflexivity.
Qed.

Lemma forward_condition_redundant_witness :
  set_params (Example.cspn 2) Example.condition = Ok (Example.injected 2)
  /\ forward echo_forward (Example.injected 2) (ones [2; 5]%nat)
       (Some Example.condition) tt
     = forward echo_forward (Example.injected 2) (ones [2; 5]%nat) None tt.
Proof.
  split; [reflexivity|].
  exact (proj2 (forward_condition_redundant echo_forward (Example.cspn 2)
                  (Example.injected 2) (ones [2; 5]%nat) Example.condition tt
                  eq_refl)).
Defined.

(** X4.  The four entropy operations treat the condition as [forward] does:
    with the condition [c] they are [set_params(c)] followed by the
    operation of the base circuit on the injected circuit, and on a circuit
    already injected with [c] the condition is redundant. *)
Theorem entropy_condition_redundant {Kwargs Reduction Out : Type}
    (rec naive huber : CSPN -> Kwargs -> Res Out)
    (nodes : CSPN -> Reduction -> Res Out)
    (self self1 : CSPN) (c : Tensor) (kwargs : Kwargs) (reduction : Reduction) :
  set_params self c = Ok self1 ->
  (recursive_entropy_approx rec self (Some c) kwargs = rec self1 kwargs
   /\ recursive_entropy_approx rec self1 (Some c) kwargs
      = recursive_entropy_approx rec self1 None kwargs)
  /\ (naive_entropy_approx naive self (Some c) kwargs = naive self1 kwargs
      /\ naive_entropy_approx naive self1 (Some c) kwargs
         = naive_entropy_approx naive self1 None kwargs)
  /\ (huber_entropy_lb huber self (Some c) kwargs = huber self1 kwargs
      /\ huber_entropy_lb huber self1 (Some c) kwargs
         = huber_entropy_lb huber self1 None kwargs)
  /\ (sum_node_entropies nodes self (Some c) reduction = nodes self1 reduction
      /\ sum_node_entropies nodes self1 (Some c) reduction
         = sum_node_entropies nodes self1 None reduction).
Proof.
  intros H. pose proof (inject_again _ _ _ H) as Hagain.
  unfold recursive_entropy_approx, naive_entropy_approx, huber_entropy_lb,
    sum_node_entropies.
  rewrite Hagain. simpl. rewrite H. simpl. repeat split.
Qed.

Lemma entropy_condition_redundant_witness :
  set_params (Example.cspn 2) Example.condition = Ok (Example.injected 2)
  /\ naive_entropy_approx (fun (m : CSPN) (_ : unit) => Ok (mean_param (base_leaf m)))
       (Example.cspn 2) (Some Example.condition) tt
     = Ok (mean_param (base_leaf (Example.injected 2))).
Proof.
  split; [reflexivity|].
  set (f := fun (m : CSPN) (_ : unit) => Ok (mean_param (base_leaf m))).
  exact (proj1 (proj1 (proj2
    (entropy_condition_redundant (Reduction := unit) f f f f (Example.cspn 2)
       (Example.injected 2) Example.condition tt tt eq_refl)))).
Defined.

(** X5.  Without a class index, [sample] makes no check of its own: it is
    the injection of the condition, if one is given, followed by the base
    circuit's [sample]; on a circuit already injected with [c] the condition
    is redundant, and the two styles pass the mode ['index'] and
    ['onehot']. *)
Theorem sample_without_class_index {Kwargs Out : Type}
    (super_sample : CSPN -> option string -> option (list nat) -> option Tensor
                    -> Kwargs -> Res Out)
    (self self1 : CSPN) (mode : option string) (c : Tensor)
    (evidence : option Tensor) (kwargs : Kwargs) :
  set_params self c = Ok self1 ->
  sample super_sample self mode (Some c) None evidence kwargs
  = super_sample self1 mode None evidence kwargs
  /\ sample super_sample self1 mode (Some c) None evidence kwargs
     = sample super_sample self1 mode None None evidence kwargs
  /\ sample_index_style super_sample self (Some c) None evidence kwargs
     = super_sample self1 (Some "index"%string) None evidence kwargs
  /\ sample_onehot_style super_sample self (Some c) None evidence kwargs
     = super_sample self1 (Some "onehot"%string) None evidence kwargs.
Proof.
  intros H. pose proof (inject_again _ _ _ H) as Hagain.
  unfold sample_index_style, sample_onehot_style, sample.
  rewrite Hagain. simpl. rewrite H. simpl. repeat split.
Qed.

Lemma sample_without_class_index_witness :
  set_params (Example.cspn 2) Example.condition = Ok (Example.injected 2)
  /\ sample echo_sample (Example.cspn 2) None (Some Example.condition) None
       None tt
     = echo_sample (Example.injected 2) None None None tt.
Proof.
  split; [reflexivity|].
  exact (proj1 (sample_without_class_index echo_sample (Example.cspn 2)
                  (Example.injected 2) None Example.condition None tt eq_refl)).
Defined.

(** ** Conditions that are not batches (X6) *)

Lemma linear_forward_rank (l : Linear) (x y : Tensor) :
  linear_forward l x = Ok y -> dim y = dim x.
Proof.
  unfold linear_forward, dim.
  destruct (shape x) as [|d ds] eqn:E using rev_ind; [discriminate|].
  rewrite last_snoc. destruct (d =? in_f l); intros H; inversion H. simpl.
  rewrite removelast_last, !length_app. reflexivity.
Qed.

Lemma linear_forward_raises (l : Linear) (x : Tensor) (e : Exn) :
  linear_forward l x = Raise e -> e = RuntimeError.
Proof.
  unfold linear_forward. destruct (list.last (shape x)) as [d|];
    [destruct (d =? in_f l)|]; intros H; inversion H; reflexivity.
Qed.

Lemma sequential_rank (ms : list NNModule) :
  forall x y, sequential ms x = Ok y -> dim y = dim x.
Proof.
  induction ms as [|m ms IH]; intros x y H; simpl in H.
  - inversion H. reflexivity.
  - bind_inv H. rewrite (IH _ _ H).
    destruct m; simpl in Ha; [inversion Ha; reflexivity | | inversion Ha; reflexivity].
    exact (linear_forward_rank _ _ _ Ha).
Qed.

Lemma sequential_raises (ms : list NNModule) :
  forall x e, sequential ms x = Raise e -> e = RuntimeError.
Proof.
  induction ms as [|m ms IH]; intros x e H; simpl in H; [discriminate|].
  destruct (module_forward m x) as [y|e'] eqn:E; simpl in H.
  - exact (IH _ _ H).
  - inversion H; subst. destruct m; simpl in E; try discriminate.
    exact (linear_forward_raises _ _ _ E).
Qed.

(** X6.  [set_params] needs a batch axis and at least one more axis.  A
    condition without dimensions raises an [IndexError] at
    [feat_inp.shape[0]]; a condition of one dimension never succeeds either:
    it raises a [RuntimeError] in the conditioning networks or, when it
    passes them, an [IndexError] at [flatten(start_dim=1)]. *)
Theorem set_params_needs_batch (self : CSPN) (x : Tensor) :
  (dim x = 0%nat -> set_params self x = Raise IndexError)
  /\ (dim x = 1%nat ->
      set_params self x = Raise RuntimeError
      \/ set_params self x = Raise IndexError).
Proof.
  unfold set_params, dim. split; intros Hd.
  - unfold shape_at. destruct (shape x); [reflexivity | discriminate].
  - unfold shape_at. destruct (shape x) as [|n [|? ?]] eqn:E; try discriminate.
    simpl.
    destruct (sequential (feat_layers self) x) as [y|e] eqn:Ey; simpl.
    + right. pose proof (sequential_rank _ _ _ Ey) as Hr. unfold dim in Hr.
      rewrite E in Hr. simpl in Hr. unfold flatten1.
      destruct (shape y) as [|a [|b r]]; try discriminate. reflexivity.
    + left. rewrite (sequential_raises _ _ _ Ey). reflexivity.
Qed.

(** A single condition vector, not wrapped into a batch, is refused. *)
Lemma set_params_needs_batch_witness :
  dim (ones [3]%nat) = 1%nat
  /\ set_params (Example.cspn 2) (ones [3]%nat) = Raise IndexError.
Proof.
  split; [reflexivity|].
  destruct (proj2 (set_params_needs_batch (Example.cspn 2) (ones [3]%nat))
              eq_refl) as [H | H]; [discriminate H | exact H].
Defined.

(** ** What the constructor accepts and builds (X7, X8, X9) *)

(** X7.  Only a flat conditioning shape is constructible: for a conditioning
    shape of any number of dimensions other than one, [create_feat_layers]
    and with it the constructor raise an [AssertionError]. *)
Theorem create_feat_layers_needs_flat_shape (init : Init) (b : RatSpn)
    (feature_dim : list nat) :
  length feature_dim <> 1%nat ->
  create_feat_layers init b feature_dim = Raise AssertionError
  /\ (CspnConfig.F_cond (spn_config b) = feature_dim ->
      CSPN_init init b = Raise AssertionError).
Proof.
  intros Hlen.
  assert (H : create_feat_layers init (replace_layer_params b) feature_dim
              = Raise AssertionError
              /\ create_feat_layers init b feature_dim = Raise AssertionError).
  { unfold create_feat_layers.
    destruct (length feature_dim =? 3) eqn:E3; simpl; [split; reflexivity|].
    apply Nat.eqb_neq in Hlen. rewrite Hlen. split; reflexivity. }
  split; [exact (proj2 H)|].
  intros HF. unfold CSPN_init. simpl. rewrite HF. exact (proj1 H).
Qed.

(** A conditioning shape of two dimensions. *)
Lemma create_feat_layers_needs_flat_shape_witness :
  length [8; 8]%nat <> 1%nat
  /\ CSPN_init Example.init0 (Example.base_for [8; 8]%nat 2)
     = Raise AssertionError.
Proof.
  assert (H : length [8; 8]%nat <> 1%nat) by (simpl; lia).
  split; [exact H|].
  exact (proj2 (create_feat_layers_needs_flat_shape Example.init0
                  (Example.base_for [8; 8]%nat 2) [8; 8]%nat H) eq_refl).
Defined.

Lemma linear_forward_2d (l : Linear) (x : Tensor) (n : nat) :
  shape x = [n; in_f l] ->
  exists y, linear_forward l x = Ok y /\ shape y = [n; out_f l].
Proof.
  intros Hx. unfold linear_forward. rewrite Hx. simpl.
  rewrite Nat.eqb_refl. eexists. split; reflexivity.
Qed.

Lemma maps_width_identity (a : nat) : maps_width [Identity] a a.
Proof. intros n x Hx. exists x. split; [reflexivity | exact Hx]. Qed.

Lemma maps_width_linear_stack (init : Init) (f : R -> R) (final : NNModule)
    (rest : list nat) :
  final = Identity \/ final = Activation f ->
  forall a, maps_width (linear_stack init (Activation f) final (a :: rest)) a
              (List.last (a :: rest) 0%nat).
Proof.
  intros Hfinal. induction rest as [|b more IH]; intros a n x Hx.
  - exists x. split; [reflexivity | exact Hx].
  - change (linear_stack init (Activation f) final (a :: b :: more))
      with (Lin (new_linear init a b)
              :: (match more with [] => final | _ :: _ => Activation f end)
              :: linear_stack init (Activation f) final (b :: more)).
    destruct (linear_forward_2d (new_linear init a b) x n Hx) as (y & Hy & Hsy).
    simpl sequential. simpl in Hy. rewrite Hy. simpl.
    assert (Hact : exists z,
              module_forward
                (match more with [] => final | _ :: _ => Activation f end) y
              = Ok z /\ shape z = [n; b]).
    { destruct more; [destruct Hfinal as [-> | ->]|]; simpl; eauto. }
    destruct Hact as (z & Hz & Hsz). rewrite Hz. simpl.
    destruct (IH b n z Hsz) as (u & Hu & Hsu). exists u. split; [exact Hu|].
    rewrite Hsu. reflexivity.
Qed.

(** The pipeline widths of a circuit constructed for the flat conditioning
    shape [(d,)]. *)
Lemma mlp_maps_width (init : Init) (f : R -> R) (w : nat) (widths : list nat) :
  maps_width
    match widths with
    | [] => [Identity]
    | _ => linear_stack init (Activation f) Identity (w :: widths)
    end w (List.last (w :: widths) 0%nat).
Proof.
  destruct widths as [|a rest]; [apply maps_width_identity|].
  apply maps_width_linear_stack. left. reflexivity.
Qed.

Lemma create_feat_layers_1d (init : Init) (b : RatSpn) (d : nat) :
  let cfg := spn_config b in
  let fw := feature_width cfg d in
  let sl := List.last (fw :: CspnConfig.sum_param_layers cfg) 0%nat in
  let dl := List.last (fw :: CspnConfig.dist_param_layers cfg) 0%nat in
  exists feat sum_net dist_net,
    create_feat_layers init b [d]
    = Ok (mkCSPN cfg (spn_inner_layers b) (spn_root b) (spn_sampling_root b)
            (spn_base_leaf b) feat sum_net
            (map (fun s => new_linear init sl (numel (weight_param s)))
               (sums (spn_inner_layers b))
             ++ [new_linear init sl (numel (weight_param (spn_root b)))])
            dist_net
            (new_linear init dl (numel (mean_param (spn_base_leaf b))))
            (new_linear init dl (numel (std_param (spn_base_leaf b)))))
    /\ feat = match CspnConfig.feat_layers cfg with
              | [] => [Identity]
              | widths =>
                  linear_stack init
                    (Activation (CspnConfig.cond_layers_inner_act cfg))
                    (Activation (CspnConfig.cond_layers_inner_act cfg))
                    (d :: widths)
              end
    /\ maps_width feat d fw
    /\ maps_width sum_net fw sl
    /\ maps_width dist_net fw dl
    /\ sum_net = match CspnConfig.sum_param_layers cfg with
                 | [] => [Identity]
                 | _ =>
                     linear_stack init
                       (Activation (CspnConfig.cond_layers_inner_act cfg))
                       Identity (fw :: CspnConfig.sum_param_layers cfg)
                 end
    /\ dist_net = match CspnConfig.dist_param_layers cfg with
                  | [] => [Identity]
                  | _ =>
                      linear_stack init
                        (Activation (CspnConfig.cond_layers_inner_act cfg))
                        Identity (fw :: CspnConfig.dist_param_layers cfg)
                  end.
Proof.
  intros cfg fw sl dl.
  set (act := CspnConfig.cond_layers_inner_act cfg).
  set (feat := match CspnConfig.feat_layers cfg with
               | [] => [Identity]
               | widths => linear_stack init (Activation act) (Activation act)
                             (d :: widths)
               end).
  assert (Hfeat : maps_width feat d fw).
  { subst feat fw. unfold feature_width. fold cfg.
    destruct (CspnConfig.feat_layers cfg) as [|a rest];
      [apply maps_width_identity|].
    apply maps_width_linear_stack. right. reflexivity. }
  destruct (Hfeat 1%nat (ones [1; d]%nat) eq_refl) as (probe & Hprobe & Hsp).
  assert (Hnumel : numel probe = fw).
  { unfold numel. rewrite Hsp. simpl. lia. }
  exists feat. eexists. eexists. split; [|split; [reflexivity|split; [exact Hfeat|]]].
  - unfold create_feat_layers. fold cfg act.
    cbn [length Nat.eqb orb assert mbind Res_bind hd].
    replace (match CspnConfig.feat_layers cfg with
             | [] => Ok [Identity]
             | n :: l => Ok (linear_stack init (Activation act) (Activation act)
                               (d :: n :: l))
             end) with (Ok feat : Res (list NNModule))
      by (subst feat; destruct (CspnConfig.feat_layers cfg); reflexivity).
    cbn [mbind Res_bind]. rewrite Hprobe. cbn [mbind Res_bind].
    rewrite Hnumel. fold fw sl dl. reflexivity.
  - split; [apply mlp_maps_width|]. split; [apply mlp_maps_width|].
    split; reflexivity.
Qed.

Lemma sums_replace_layer (layers : list Layer) :
  sums (map replace_layer layers)
  = map (fun s => set_weight_param s (zeros_like (weight_param s))) (sums layers).
Proof.
  induction layers as [|[s|c] rest IH]; simpl; [reflexivity | f_equal; exact IH
                                                 | exact IH].
Qed.

(** X8.  For a flat conditioning shape [(d,)] the constructor succeeds,
    whatever widths are configured.  Every parameter slot of the result is a
    zero placeholder of the shape the parameter had, except that the
    standard-deviation slot takes the shape of the mean parameter.  There is
    one head per [Sum] inner layer, in order, and a last one for the root,
    each as wide as its layer's weight tensor has elements; both leaf heads
    are as wide as the mean parameter has elements.  The feature extractor
    maps a batch of vectors of length [d] to vectors of the last configured
    width. *)
Theorem CSPN_init_flat_shape (init : Init) (b : RatSpn) (d : nat) :
  CspnConfig.F_cond (spn_config b) = [d] ->
  exists m,
    CSPN_init init b = Ok m
    /\ (map weight_param (sums (inner_layers m))
        = map (fun s => zeros (shape (weight_param s)))
            (sums (spn_inner_layers b))
        /\ map sizes (sums (inner_layers m))
           = map sizes (sums (spn_inner_layers b))
        /\ weight_param (root m) = zeros (shape (weight_param (spn_root b)))
        /\ weight_param (sampling_root m)
           = zeros (shape (weight_param (spn_sampling_root b)))
        /\ mean_param (base_leaf m)
           = zeros (shape (mean_param (spn_base_leaf b)))
        /\ std_param (base_leaf m)
           = zeros (shape (mean_param (spn_base_leaf b))))
    /\ (map out_f (sum_param_heads m)
        = map (fun s => numel (weight_param s)) (sums (spn_inner_layers b))
          ++ [numel (weight_param (spn_root b))]
        /\ out_f (dist_mean_head m) = numel (mean_param (spn_base_leaf b))
        /\ out_f (dist_std_head m) = numel (mean_param (spn_base_leaf b)))
    /\ maps_width (feat_layers m) d (feature_width (spn_config b) d).
Proof.
  intros HF. unfold CSPN_init.
  change (CspnConfig.F_cond (spn_config (replace_layer_params b)))
    with (CspnConfig.F_cond (spn_config b)).
  rewrite HF.
  destruct (create_feat_layers_1d init (replace_layer_params b) d)
    as (feat & sum_net & dist_net & Hm & _ & Hfeat & _ & _).
  eexists. split; [exact Hm|]. cbn [inner_layers root sampling_root base_leaf
    sum_param_heads dist_mean_head dist_std_head feat_layers].
  split; [|split; [|exact Hfeat]].
  - cbn [replace_layer_params spn_inner_layers spn_root spn_sampling_root
           spn_base_leaf].
    rewrite sums_replace_layer, !map_map. repeat split.
  - cbn [replace_layer_params spn_inner_layers spn_root spn_sampling_root
           spn_base_leaf].
    rewrite sums_replace_layer, map_app, !map_map. repeat split.
Qed.

(** The example circuit. *)
Lemma CSPN_init_flat_shape_witness :
  CspnConfig.F_cond (spn_config (Example.base 2)) = [3%nat]
  /\ exists m,
       CSPN_init Example.init0 (Example.base 2) = Ok m
       /\ map out_f (sum_param_heads m) = [8; 4]%nat
       /\ std_param (base_leaf m) = zeros [1; 2; 2; 1]%nat.
Proof.
  split; [reflexivity|].
  destruct (CSPN_init_flat_shape Example.init0 (Example.base 2) 3 eq_refl)
    as (m & Hm & (_ & _ & _ & _ & _ & Hstd) & (Hheads & _) & _).
  exists m. split; [exact Hm|]. split; [exact Hheads | exact Hstd].
Defined.

Lemma flatten1_2d (t : Tensor) (n w : nat) :
  shape t = [n; w] -> exists y, flatten1 t = Ok y /\ shape y = [n; w].
Proof.
  intros Ht. unfold flatten1. rewrite Ht. eexists. split; [reflexivity|].
  simpl. f_equal. f_equal. lia.
Qed.

Lemma view_2d (t : Tensor) (n k : nat) (sh : list nat) :
  shape t = [n; k] -> k = prod_dims sh ->
  exists y, view t (n :: sh) = Ok y.
Proof.
  intros Ht Hk. unfold view, numel. rewrite Ht.
  replace (prod_dims [n; k] =? prod_dims (n :: sh)) with true; [eauto|].
  symmetry. apply Nat.eqb_eq. simpl. rewrite Hk. lia.
Qed.

Lemma normalized_weights_succeeds (head : Linear) (pre : Tensor) (n : nat)
    (s : Sum) :
  shape pre = [n; in_f head] ->
  out_f head
  = in_features s * in_channels s * out_channels s * num_repetitions s ->
  exists w, normalized_weights head pre n s = Ok w.
Proof.
  intros Hpre Hout. unfold normalized_weights.
  destruct (linear_forward_2d head pre n Hpre) as (out & Ho & Hso).
  rewrite Ho. cbn [mbind Res_bind].
  destruct (view_2d out n (out_f head)
              [in_features s; in_channels s; out_channels s; num_repetitions s]
              Hso) as (raw & Hraw).
  { rewrite Hout. simpl. lia. }
  unfold weight_shape. rewrite Hraw. cbn [mbind Res_bind].
  unfold log_softmax. rewrite (view_shape _ _ _ Hraw). simpl. eauto.
Qed.

(** With one fitting head per [Sum] layer, in order, the loop succeeds. *)
Lemma set_inner_weights_succeeds (init : Init) (w : nat) (pre : Tensor)
    (n : nat) (layers : list Layer) :
  shape pre = [n; w] ->
  Forall sum_slot_fits (sums layers) ->
  forall (before after : list Linear),
    exists layers',
      set_inner_weights
        (before
         ++ map (fun s => new_linear init w (numel (weight_param s)))
              (sums layers)
         ++ after)
        pre n layers (length before)
      = Ok (layers', length before + length (sums layers)).
Proof.
  intros Hpre. induction layers as [|[s|c] rest IH]; intros Hfit before after.
  - exists []. simpl. rewrite Nat.add_0_r. reflexivity.
  - simpl in Hfit. inversion Hfit as [|? ? Hs Hrest]; subst.
    simpl sums. simpl map.
    set (head := new_linear init w (numel (weight_param s))).
    simpl set_inner_weights. unfold head_at.
    rewrite lookup_app_r by lia. rewrite Nat.sub_diag. simpl lookup.
    cbn [mbind Res_bind].
    destruct (normalized_weights_succeeds head pre n s Hpre Hs) as (wt & Hwt).
    rewrite Hwt. cbn [mbind Res_bind].
    destruct (IH Hrest (before ++ [head]) after) as (rest' & Hr).
    rewrite <- app_assoc, length_app in Hr. simpl in Hr.
    replace (length before + 1) with (S (length before)) in Hr by lia.
    rewrite Hr. cbn [mbind Res_bind fst snd].
    eexists. f_equal. f_equal. simpl. lia.
  - simpl in Hfit. simpl set_inner_weights.
    destruct (IH Hfit before after) as (rest' & Hr). simpl sums.
    rewrite Hr. cbn [mbind Res_bind fst snd]. eauto.
Qed.

(** A circuit whose conditioning networks and heads have fitting widths
    accepts every batch of vectors of length [d]. *)
Lemma set_params_succeeds (init : Init) (m : CSPN) (d fw sl dl N : nat)
    (x : Tensor) :
  shape x = [N; d] ->
  maps_width (feat_layers m) d fw ->
  maps_width (sum_layers m) fw sl ->
  maps_width (dist_layers m) fw dl ->
  sum_param_heads m
  = map (fun s => new_linear init sl (numel (weight_param s)))
      (sums (inner_layers m))
    ++ [new_linear init sl (numel (weight_param (root m)))] ->
  Forall sum_slot_fits (sums (inner_layers m)) ->
  sum_slot_fits (root m) ->
  in_f (dist_mean_head m) = dl ->
  in_f (dist_std_head m) = dl ->
  out_f (dist_mean_head m)
  = leaf_in_features (base_leaf m) * CspnConfig.I (config m)
    * CspnConfig.R (config m) ->
  out_f (dist_std_head m)
  = leaf_in_features (base_leaf m) * CspnConfig.I (config m)
    * CspnConfig.R (config m) ->
  ((0 < CspnConfig.C (config m))%nat -> exists m', set_params m x = Ok m')
  /\ (CspnConfig.C (config m) = 0%nat ->
      set_params m x = Raise ZeroDivisionError).
Proof.
  intros Hx Hfeat Hsum Hdist Hheads Hfit Hroot Hmi Hsi Hmo Hso.
  unfold set_params.
  unfold shape_at. rewrite Hx. simpl lookup. cbn [mbind Res_bind].
  destruct (Hfeat N x Hx) as (f0 & Hf0 & Hsf0). rewrite Hf0.
  cbn [mbind Res_bind].
  destruct (flatten1_2d f0 N fw Hsf0) as (f & Hf & Hsf). rewrite Hf.
  cbn [mbind Res_bind].
  destruct (Hsum N f Hsf) as (pre & Hpre & Hspre). rewrite Hpre.
  cbn [mbind Res_bind]. rewrite Hheads.
  destruct (set_inner_weights_succeeds init sl pre N _ Hspre Hfit []
              [new_linear init sl (numel (weight_param (root m)))])
    as (layers' & Hloop).
  cbn [app length Nat.add] in Hloop.
  rewrite Hloop. cbn [mbind Res_bind].
  unfold head_at. rewrite lookup_app_r by (rewrite length_map; lia).
  rewrite length_map, Nat.sub_diag. simpl lookup.
  cbn [mbind Res_bind].
  destruct (normalized_weights_succeeds
              (new_linear init sl (numel (weight_param (root m))))
              pre N (root m) Hspre Hroot) as (wroot & Hwroot).
  rewrite Hwroot. cbn [mbind Res_bind].
  destruct (Hdist N f Hsf) as (dpre & Hdpre & Hsdpre).
  assert (Hhead : forall h : Linear,
            in_f h = dl ->
            out_f h = leaf_in_features (base_leaf m) * CspnConfig.I (config m)
                      * CspnConfig.R (config m) ->
            exists out v,
              linear_forward h dpre = Ok out
              /\ view out
                   [N; leaf_in_features (base_leaf m);
                    CspnConfig.I (config m); CspnConfig.R (config m)] = Ok v).
  { intros h Hin Hout. rewrite <- Hin in Hsdpre.
    destruct (linear_forward_2d h dpre N Hsdpre) as (out & Ho & Hsout).
    destruct (view_2d out N (out_f h)
                [leaf_in_features (base_leaf m);
                 CspnConfig.I (config m); CspnConfig.R (config m)] Hsout)
      as (v & Hv).
    { rewrite Hout. simpl. lia. }
    eauto. }
  destruct (Hhead _ Hmi Hmo) as (mo & mv & Hmo' & Hmv).
  destruct (Hhead _ Hsi Hso) as (so & sv & Hso' & Hsv).
  split.
  - intros HC. unfold one_over.
    destruct (Nat.eqb_spec (CspnConfig.C (config m)) 0) as [E | _]; [lia|].
    cbn [mbind Res_bind]. rewrite Hdpre. cbn [mbind Res_bind].
    rewrite Hmo'. cbn [mbind Res_bind]. rewrite Hmv. cbn [mbind Res_bind].
    rewrite Hso'. cbn [mbind Res_bind]. rewrite Hsv. cbn [mbind Res_bind].
    eauto.
  - intros HC. unfold one_over. rewrite HC. reflexivity.
Qed.

(** X9.  The widths chosen at construction fit the injection.  Let the base
    circuit's slots have the sizes its layers declare, and let the CSPN be
    constructed for the flat conditioning shape [(d,)].  Then [set_params]
    accepts every batch of shape [(N, d)], also the empty one, provided the
    number of classes [C] is positive; with [C = 0] it raises a
    [ZeroDivisionError] on every such batch. *)
Theorem constructed_accepts_batches (init : Init) (b : RatSpn) (m : CSPN)
    (d N : nat) (x : Tensor) :
  CspnConfig.F_cond (spn_config b) = [d] ->
  slots_fit b ->
  CSPN_init init b = Ok m ->
  shape x = [N; d] ->
  ((0 < CspnConfig.C (spn_config b))%nat -> exists m', set_params m x = Ok m')
  /\ (CspnConfig.C (spn_config b) = 0%nat ->
      set_params m x = Raise ZeroDivisionError).
Proof.
  intros HF (Hfit & Hroot & Hleaf) Hinit Hx.
  unfold CSPN_init in Hinit.
  change (CspnConfig.F_cond (spn_config (replace_layer_params b)))
    with (CspnConfig.F_cond (spn_config b)) in Hinit.
  rewrite HF in Hinit.
  destruct (create_feat_layers_1d init (replace_layer_params b) d)
    as (feat & sum_net & dist_net & Hm & _ & Hfeat & Hsum & Hdist & _).
  rewrite Hm in Hinit. injection Hinit as Hmeq. clear Hm.
  assert (Hcfg : config m = spn_config b) by (rewrite <- Hmeq; reflexivity).
  rewrite <- Hcfg.
  refine (set_params_succeeds init m d _ _ _ N x Hx _ _ _ _ _ _ _ _ _ _);
    rewrite <- Hmeq;
    cbn [config inner_layers root base_leaf feat_layers sum_layers
           sum_param_heads dist_layers dist_mean_head dist_std_head].
  - exact Hfeat.
  - exact Hsum.
  - exact Hdist.
  - reflexivity.
  - cbn [replace_layer_params spn_inner_layers].
    rewrite sums_replace_layer.
    induction Hfit as [|s rest Hs _ IH]; simpl; constructor;
      [exact Hs | exact IH].
  - exact Hroot.
  - reflexivity.
  - reflexivity.
  - exact Hleaf.
  - exact Hleaf.
Qed.

(** The example circuit accepts a batch of seven conditions. *)
Lemma constructed_accepts_batches_witness :
  CspnConfig.F_cond (spn_config (Example.base 2)) = [3%nat]
  /\ slots_fit (Example.base 2)
  /\ CSPN_init Example.init0 (Example.base 2) = Ok (Example.cspn 2)
  /\ exists m', set_params (Example.cspn 2) (ones [7; 3]%nat) = Ok m'.
Proof.
  assert (Hfit : slots_fit (Example.base 2)).
  { split; [|split]; [repeat constructor | reflexivity | reflexivity]. }
  split; [reflexivity|]. split; [exact Hfit|]. split; [reflexivity|].
  apply (proj1 (constructed_accepts_batches Example.init0 (Example.base 2)
                  (Example.cspn 2) 3 7 (ones [7; 3]%nat) eq_refl Hfit eq_refl
                  eq_refl)).
  simpl. lia.
Defined.

(** ** Batches of the wrong width (X10) *)







(** ** Data that the facade does not check (X11) *)

(** X11.  [forward] compares the weight-set axis of the data with the
    injected weight sets only for data of two or three dimensions.  Data of
    any other rank, such as the four dimensions that the docstring of
    [forward] describes, reaches the base circuit unchecked and as it is,
    whatever its sizes. *)
Theorem forward_other_ranks_unchecked {Kwargs Out : Type}
    (super_forward : CSPN -> Tensor -> Kwargs -> Res Out)
    (self self1 : CSPN) (x : Tensor) (condition : option Tensor)
    (kwargs : Kwargs) (W : nat) :
  inject self condition = Ok self1 ->
  shape (means (base_leaf self1)) !! 0 = Some W ->
  dim x <> 2%nat -> dim x <> 3%nat ->
  forward super_forward self x condition kwargs = super_forward self1 x kwargs.
Proof.
  intros Hin HW H2 H3.
  rewrite (forward_after_inject super_forward self self1 x condition kwargs W
             Hin HW).
  apply Nat.eqb_neq in H2, H3. rewrite H2, H3. reflexivity.
Qed.

(** Four-dimensional data with five weight sets against two injected ones. *)
Lemma forward_other_ranks_unchecked_witness :
  inject (Example.cspn 2) (Some Example.condition) = Ok (Example.injected 2)
  /\ shape (means (base_leaf (Example.injected 2))) !! 0 = Some 2%nat
  /\ forward echo_forward (Example.cspn 2) (ones [1; 5; 2; 1]%nat)
       (Some Example.condition) tt
     = Ok (ones [1; 5; 2; 1]%nat).
Proof.
  split; [reflexivity|]. split; [reflexivity|].
  apply (forward_other_ranks_unchecked echo_forward (Example.cspn 2)
           (Example.injected 2) (ones [1; 5; 2; 1]%nat)
           (Some Example.condition) tt 2 eq_refl eq_refl);
    intros E; discriminate E.
Defined.

(** ** What an injection leaves alone (X12) *)

Lemma set_inner_weights_layer_after (heads : list Linear) (pre : Tensor)
    (n : nat) (layers : list Layer) :
  forall (i : nat) (layers' : list Layer) (j : nat),
    set_inner_weights heads pre n layers i = Ok (layers', j) ->
    Forall2 (layer_after n) layers layers'.
Proof.
  induction layers as [|[s|c] rest IH]; intros i layers' j H; simpl in H.
  - inversion H; subst. constructor.
  - bind_inv H. destruct a1 as [rest' j']. simpl in H. inversion H; subst.
    constructor; [reflexivity | exact (IH _ _ _ Ha1)].
  - bind_inv H. destruct a as [rest' j']. simpl in H. inversion H; subst.
    constructor; [reflexivity | exact (IH _ _ _ Ha)].
Qed.

(** X12.  A successful [set_params] on a batch of [N] conditions changes
    parameter values only.  The inner layers stay the same layers in the
    same order, the [Sum] layers with their sizes and every other layer with
    [num_conditionals] set to [N]; the configuration, the conditioning
    networks with their heads, the sizes of the root and of the sampling
    root, and the leaf's feature count and bounds are as before. *)
Theorem set_params_frame (self self' : CSPN) (x : Tensor) (N : nat) :
  set_params self x = Ok self' ->
  shape x !! 0 = Some N ->
  Forall2 (layer_after N) (inner_layers self) (inner_layers self')
  /\ config self' = config self
  /\ (feat_layers self' = feat_layers self
      /\ sum_layers self' = sum_layers self
      /\ sum_param_heads self' = sum_param_heads self
      /\ dist_layers self' = dist_layers self
      /\ dist_mean_head self' = dist_mean_head self
      /\ dist_std_head self' = dist_std_head self)
  /\ sizes (root self') = sizes (root self)
  /\ sizes (sampling_root self') = sizes (sampling_root self)
  /\ leaf_in_features (base_leaf self') = leaf_in_features (base_leaf self)
  /\ mean_bound (base_leaf self') = mean_bound (base_leaf self)
  /\ std_bound (base_leaf self') = std_bound (base_leaf self).
Proof.
  intros H HN.
  destruct (set_params_Ok _ _ _ H)
    as (n & feats & pre & layers & i & head & wroot & c & dpre & mout & m
        & sout & s & Hn & _ & _ & Hloop & _ & _ & _ & _ & _ & _ & _ & _ & ->).
  assert (n = N) by congruence. subst n. simpl.
  split; [exact (set_inner_weights_layer_after _ _ _ _ _ _ _ Hloop)|].
  repeat split.
Qed.

Lemma set_params_frame_witness :
  set_params (Example.cspn 2) Example.condition = Ok (Example.injected 2)
  /\ shape Example.condition !! 0 = Some 2%nat
  /\ inner_layers (Example.injected 2) !! 0 = Some (CrossProduct (Some 2%nat))
  /\ sum_param_heads (Example.injected 2) = sum_param_heads (Example.cspn 2).
Proof.
  split; [reflexivity|]. split; [reflexivity|].
  destruct (set_params_frame (Example.cspn 2) (Example.injected 2)
              Example.condition 2 eq_refl eq_refl)
    as (_ & _ & (_ & _ & Hh & _) & _).
  split; [reflexivity | exact Hh].
Defined.

(** ** The number of head parameters (X13) *)

Lemma Ok_inj {A : Type} (a b : A) : Ok a = Ok b -> a = b.
Proof. intros H. inversion H. reflexivity. Qed.

Lemma head_params_sum (init : Init) (w : nat) (ks : list nat) (z : nat) :
  foldr Nat.add z (map linear_params (map (new_linear init w) ks))
  = (w + 1) * foldr Nat.add 0%nat ks + z.
Proof.
  induction ks as [|k ks IH]; simpl; [lia|].
  rewrite IH. unfold linear_params. simpl. lia.
Qed.

(** X13.  For a CSPN constructed for the flat conditioning shape [(d,)],
    the heads of the sum pipeline hold [(w + 1)] parameters for every sum
    weight of the circuit, the root's included, where [w] is the width of the
    sum pipeline's output; the two leaf heads together hold
    [2 * (v + 1)] parameters for every element of the mean parameter, where
    [v] is the width of the distribution pipeline's output.  Pipelines
    without configured widths have no parameters at all. *)
Theorem head_param_counts (init : Init) (b : RatSpn) (m : CSPN) (d : nat) :
  CspnConfig.F_cond (spn_config b) = [d] ->
  CSPN_init init b = Ok m ->
  let cfg := spn_config b in
  let fw := feature_width cfg d in
  let w := List.last (fw :: CspnConfig.sum_param_layers cfg) 0%nat in
  let v := List.last (fw :: CspnConfig.dist_param_layers cfg) 0%nat in
  sum_head_params (print_cspn_params m)
  = (w + 1)
    * (foldr Nat.add 0%nat
         (map (fun s => numel (weight_param s)) (sums (spn_inner_layers b)))
       + numel (weight_param (spn_root b)))
  /\ dist_head_params (print_cspn_params m)
     = 2 * ((v + 1) * numel (mean_param (spn_base_leaf b)))
  /\ (CspnConfig.feat_layers cfg = [] -> feat_params (print_cspn_params m) = 0%nat)
  /\ (CspnConfig.sum_param_layers cfg = [] ->
      sum_layer_params (print_cspn_params m) = 0%nat)
  /\ (CspnConfig.dist_param_layers cfg = [] ->
      dist_layer_params (print_cspn_params m) = 0%nat).
Proof.
  intros HF Hinit cfg fw w v.
  unfold CSPN_init in Hinit.
  change (CspnConfig.F_cond (spn_config (replace_layer_params b)))
    with (CspnConfig.F_cond (spn_config b)) in Hinit.
  rewrite HF in Hinit.
  destruct (create_feat_layers_1d init (replace_layer_params b) d)
    as (feat & sum_net & dist_net & Hm & Hfeq & _ & _ & _ & Hseq & Hdeq).
  rewrite Hm in Hinit. apply Ok_inj in Hinit. subst m. clear Hm.
  change (spn_config (replace_layer_params b)) with cfg in *.
  fold fw in Hseq, Hdeq |- *. fold w v.
  unfold print_cspn_params.
  cbn [feat_layers sum_layers sum_param_heads dist_layers dist_mean_head
         dist_std_head sum_head_params dist_head_params feat_params
         sum_layer_params dist_layer_params].
  split; [|split; [|split; [|split]]].
  - cbn [replace_layer_params spn_inner_layers spn_root].
    rewrite sums_replace_layer, map_map.
    change (map (fun s : Sum =>
                   new_linear init w
                     (numel (weight_param
                               (set_weight_param s (zeros_like (weight_param s))))))
              (sums (spn_inner_layers b)))
      with (map (fun s : Sum => new_linear init w (numel (weight_param s)))
              (sums (spn_inner_layers b))).
    rewrite <- (map_map (fun s : Sum => numel (weight_param s))
                  (new_linear init w)).
    rewrite map_app, foldr_app, head_params_sum.
    unfold linear_params. simpl.
    change (numel (zeros_like (weight_param (spn_root b))))
      with (numel (weight_param (spn_root b))).
    lia.
  - unfold linear_params. simpl.
    change (numel (zeros_like (mean_param (spn_base_leaf b))))
      with (numel (mean_param (spn_base_leaf b))).
    lia.
  - intros E. rewrite Hfeq, E. reflexivity.
  - intros E. rewrite Hseq, E. reflexivity.
  - intros E. rewrite Hdeq, E. reflexivity.
Qed.

(** The example circuit: heads of widths 8 and 4 on a pipeline of width 3. *)
Lemma head_param_counts_witness :
  CspnConfig.F_cond (spn_config (Example.base 2)) = [3%nat]
  /\ CSPN_init Example.init0 (Example.base 2) = Ok (Example.cspn 2)
  /\ sum_head_params (print_cspn_params (Example.cspn 2)) = 48%nat
  /\ dist_head_params (print_cspn_params (Example.cspn 2)) = 32%nat.
Proof.
  split; [reflexivity|]. split; [reflexivity|].
  destruct (head_param_counts Example.init0 (Example.base 2) (Example.cspn 2)
              3 eq_refl eq_refl) as (Hs & Hd & _).
  split; [exact Hs | exact Hd].
Defined.

(** ** Assignments to the configuration (X14) *)

Lemma setattr_dom {V : Type} (self self' : gmap string V) (key : string)
    (value : V) :
  setattr self key value = Ok self' ->
  dom self' = dom self /\ self' !! key = Some value
  /\ forall k, k <> key -> self' !! k = self !! k.
Proof.
  unfold setattr. destruct (self !! key) as [old|] eqn:E; intros H;
    [apply Ok_inj in H; subst self' | discriminate H].
  split; [|split].
  - rewrite dom_insert_L. apply elem_of_dom_2 in E.
    apply subseteq_union_1_L, singleton_subseteq_l, E.
  - apply lookup_insert_eq.
  - intros k Hk. apply lookup_insert_ne. congruence.
Qed.

(** X14.  A configuration only takes assignments to names it already has.
    A sequence of assignments goes through exactly when every assigned name
    is one of them; it then leaves the set of names as it was and changes no
    value of a name that is not assigned; otherwise it raises an
    [AttributeError]. *)
Theorem setattrs_known_names {V : Type} (assignments : list (string * V)) :
  forall self : gmap string V,
    (Forall (fun kv => kv.1 ∈ dom self) assignments ->
     exists self',
       setattrs self assignments = Ok self'
       /\ dom self' = dom self
       /\ forall k, k ∉ map fst assignments -> self' !! k = self !! k)
    /\ (~ Forall (fun kv => kv.1 ∈ dom self) assignments ->
        setattrs self assignments = Raise AttributeError).
Proof.
  induction assignments as [|[key value] rest IH]; intros self.
  - split; [|intros H; destruct H; constructor].
    intros _. exists self. repeat split.
  - simpl setattrs.
    destruct (self !! key) as [old|] eqn:E; unfold setattr; rewrite E;
      cbn [mbind Res_bind].
    + assert (Hdom : dom (<[key:=value]> self) = dom self).
      { rewrite dom_insert_L. apply elem_of_dom_2 in E.
        apply subseteq_union_1_L, singleton_subseteq_l, E. }
      destruct (IH (<[key:=value]> self)) as [Hok Hbad].
      rewrite Hdom in Hok, Hbad. split.
      * intros Hall. apply Forall_cons_1 in Hall. destruct Hall as [_ Hrest].
        destruct (Hok Hrest) as (self' & Hs & Hd & Hk).
        exists self'. split; [exact Hs|]. split; [exact Hd|].
        intros k Hnot. simpl in Hnot. apply not_elem_of_cons in Hnot.
        destruct Hnot as [Hne Hnot]. rewrite (Hk k Hnot).
        apply lookup_insert_ne. congruence.
      * intros Hnot. apply Hbad. intros Hrest. apply Hnot.
        constructor; [|exact Hrest]. simpl. eapply elem_of_dom_2, E.
    + split; [|reflexivity].
      intros Hall. inversion Hall as [|? ? Hin _]; subst. simpl in Hin.
      apply not_elem_of_dom in E. contradiction.
Qed.

(** A configuration with the names [C] and [I]: setting both goes through,
    setting an unknown name raises. *)
Lemma setattrs_known_names_witness :
  let cfg : gmap string nat := {["C"%string := 1%nat; "I"%string := 5%nat]} in
  Forall (fun kv : string * nat => kv.1 ∈ dom cfg)
    [("C"%string, 2%nat); ("I"%string, 3%nat)]
  /\ (exists cfg',
        setattrs cfg [("C"%string, 2%nat); ("I"%string, 3%nat)] = Ok cfg'
        /\ dom cfg' = dom cfg)
  /\ setattrs cfg [("C"%string, 2%nat); ("fc_sum_param_layers"%string, 1%nat)]
     = Raise AttributeError.
Proof.
  intros cfg.
  assert (Hall : Forall (fun kv : string * nat => kv.1 ∈ dom cfg)
                   [("C"%string, 2%nat); ("I"%string, 3%nat)]).
  { repeat constructor; simpl; apply elem_of_dom; eexists; reflexivity. }
  split; [exact Hall|]. split.
  - destruct (proj1 (setattrs_known_names
                       [("C"%string, 2%nat); ("I"%string, 3%nat)] cfg) Hall)
      as (cfg' & Hs & Hd & _).
    exists cfg'. split; [exact Hs | exact Hd].
  - apply (proj2 (setattrs_known_names
                    [("C"%string, 2%nat);
                     ("fc_sum_param_layers"%string, 1%nat)] cfg)).
    intros H. inversion H as [|? ? _ H2]; subst.
    inversion H2 as [|? ? Hin _]; subst. simpl in Hin.
    apply elem_of_dom in Hin. destruct Hin as [v Hv]. discriminate Hv.
Defined.

(** ** The feature width of the layerwise variant (X15, X16) *)









(** ** The facade of the layerwise variant (X17, X18) *)

(** X17.  The layerwise [sample] computes the weights from the condition
    first and then checks both optional arguments against the batch size [B]
    of the condition: a given [n] other than [B], or a class-index list of
    another length than [B], raises an [AssertionError]; otherwise the call
    is the base circuit's [sample] on the circuit with the new weights. *)
Theorem layerwise_sample_contract {Out : Type}
    (super_sample : CSPN -> option nat -> option (list nat) -> option Tensor
                    -> bool -> Res Out)
    (self self1 : CSPN) (condition : Tensor) (n : option nat)
    (class_index : option (list nat)) (evidence : option Tensor)
    (is_mpe : bool) (B : nat) :
  Layerwise.compute_weights self condition = Ok self1 ->
  shape condition !! 0 = Some B ->
  let fits :=
    (match n with Some k => B = k | None => True end)
    /\ (match class_index with Some ci => B = length ci | None => True end) in
  (fits ->
   LayerwiseInit.sample super_sample self condition n class_index evidence
     is_mpe
   = super_sample self1 n class_index evidence is_mpe)
  /\ (~ fits ->
      LayerwiseInit.sample super_sample self condition n class_index evidence
        is_mpe
      = Raise AssertionError).
Proof.
  intros Hc HB fits. unfold LayerwiseInit.sample. rewrite Hc.
  cbn [mbind Res_bind]. apply shape_at_Ok in HB. rewrite HB.
  subst fits. destruct n as [k|], class_index as [ci|]; cbn [mbind Res_bind];
    try destruct (Nat.eqb_spec B k) as [Ek | Ek];
    try destruct (Nat.eqb_spec B (length ci)) as [Ec | Ec];
    cbn [assert mbind Res_bind]; split; intros H; try reflexivity;
    try (exfalso; tauto).
Qed.

Lemma layerwise_sample_contract_witness :
  Layerwise.compute_weights (Example.cspn 2) Example.condition
  = Ok (Example.raw 2)
  /\ shape Example.condition !! 0 = Some 2%nat
  /\ LayerwiseInit.sample
       (fun (m : CSPN) (_ : option nat) (_ : option (list nat))
            (_ : option Tensor) (_ : bool) => Ok (mean_param (base_leaf m)))
       (Example.cspn 2) Example.condition (Some 3%nat) None None false
     = Raise AssertionError.
Proof.
  split; [reflexivity|]. split; [reflexivity|].
  apply (proj2 (layerwise_sample_contract
                  (fun (m : CSPN) (_ : option nat) (_ : option (list nat))
                       (_ : option Tensor) (_ : bool) =>
                     Ok (mean_param (base_leaf m)))
                  (Example.cspn 2) (Example.raw 2) Example.condition
                  (Some 3%nat) None None false 2 eq_refl eq_refl)).
  intros [H _]. discriminate H.
Defined.

(** X18.  The layerwise [forward] always needs a condition: it recomputes
    the weights on every call, and a call with [condition=None] raises an
    [AttributeError] without reaching the base circuit.  The loop of
    [evaluate_model], which samples with the condition and then evaluates
    the sample with [condition=None], therefore never gets a likelihood from
    this CSPN, whatever the model, the batch and the base circuit. *)
Theorem layerwise_forward_needs_condition {Out : Type}
    (super_forward : CSPN -> Tensor -> Res Out)
    (super_sample : CSPN -> option nat -> option (list nat) -> option Tensor
                    -> bool -> Res Tensor)
    (model : CSPN) (x cond : Tensor) :
  LayerwiseInit.forward super_forward model x None = Raise AttributeError
  /\ LayerwiseInit.forward super_forward model x (Some cond)
     = (Layerwise.compute_weights model cond
        ≫= fun m => super_forward m x)
  /\ (forall r, evaluate_model_step super_forward super_sample model cond
                <> Ok r)
  /\ (forall s,
        LayerwiseInit.sample super_sample model cond None None None false
        = Ok s ->
        evaluate_model_step super_forward super_sample model cond
        = Raise AttributeError).
Proof.
  split; [reflexivity|]. split; [reflexivity|].
  unfold evaluate_model_step. split.
  - intros r.
    destruct (LayerwiseInit.sample super_sample model cond None None None false);
      [|discriminate].
    cbn [mbind Res_bind].
    destruct (Layerwise.compute_weights model cond); discriminate.
  - intros s Hs. rewrite Hs. cbn [mbind Res_bind].
    unfold LayerwiseInit.sample in Hs.
    destruct (Layerwise.compute_weights model cond); [reflexivity|].
    discriminate Hs.
Qed.

(** ** The layerwise injection (X19) *)




(** ** Cutting the centre out of an image and putting it back (X20, X21) *)

Lemma ravel_lt (ds js : list nat) :
  Forall2 lt js ds -> ravel ds js < prod_dims ds.
Proof.
  induction 1 as [|j d js ds Hj _ IH]; simpl; [lia|].
  fold (prod_dims ds). nia.
Qed.

(** A multi-index within the shape is recovered from its row-major
    position; the leading index need not be within its axis. *)
Lemma unravel_ravel (ds js : list nat) :
  Forall2 lt js ds ->
  forall i d, unravel (d :: ds) (ravel (d :: ds) (i :: js)) = i :: js.
Proof.
  induction 1 as [|j d' js ds Hj Hrest IH]; intros i d.
  - change (unravel [d] (ravel [d] [i])) with ([(i * 1 + 0) / 1]).
    rewrite Nat.div_1_r. f_equal. lia.
  - assert (Hlt : ravel (d' :: ds) (j :: js) < prod_dims (d' :: ds))
      by (apply ravel_lt; constructor; assumption).
    change (unravel (d :: d' :: ds) (ravel (d :: d' :: ds) (i :: j :: js)))
      with ((i * prod_dims (d' :: ds) + ravel (d' :: ds) (j :: js))
              / prod_dims (d' :: ds)
            :: unravel (d' :: ds)
                 ((i * prod_dims (d' :: ds) + ravel (d' :: ds) (j :: js))
                  mod prod_dims (d' :: ds))).
    rewrite Nat.div_add_l by lia.
    rewrite (Nat.div_small _ _ Hlt), Nat.add_0_r.
    rewrite Nat.add_comm, Nat.Div0.mod_add, (Nat.mod_small _ _ Hlt).
    rewrite IH. reflexivity.
Qed.

Lemma broadcast_index_in_range (sh idx : list nat) :
  Forall2 lt idx sh -> broadcast_index sh idx = idx.
Proof.
  unfold broadcast_index. induction 1 as [|i d idx sh Hi _ IH]; [reflexivity|].
  simpl. rewrite IH. destruct (Nat.eqb_spec d 1); [f_equal; lia | reflexivity].
Qed.

Lemma broadcasts_refl (sh : list nat) : Stl10.broadcasts sh sh = true.
Proof.
  unfold Stl10.broadcasts. induction (rev sh) as [|a l IH]; [reflexivity|].
  simpl. rewrite Nat.eqb_refl, IH. reflexivity.
Qed.

Lemma clamp_within (r : nat * nat) (size : nat) :
  r.1 <= r.2 -> r.2 <= size -> Stl10.clamp r size = r.
Proof.
  intros H1 H2. unfold Stl10.clamp. destruct r as [a b]. simpl in *.
  rewrite !Nat.min_l by lia. reflexivity.
Qed.

(** The two results of [cut_out_center] on a window within the image. *)
Lemma cut_out_center_Ok (rows cols : nat * nat) (image : Tensor)
    (n c h w : nat) :
  shape image = [n; c; h; w] ->
  rows.1 <= rows.2 -> rows.2 <= h -> cols.1 <= cols.2 -> cols.2 <= w ->
  exists data cond,
    Stl10.cut_out_center rows cols image = Ok (data, cond)
    /\ shape data = [n; c; rows.2 - rows.1; cols.2 - cols.1]
    /\ shape cond = [n; c; h; w]
    /\ (forall a b i j,
          entry data [a; b; i; j] = entry image [a; b; rows.1 + i; cols.1 + j])
    /\ (forall a b i j,
          entry cond [a; b; i; j]
          = if Stl10.in_window rows cols i j then 0%R
            else entry image [a; b; i; j]).
Proof.
  intros Hsh Hr1 Hr2 Hc1 Hc2.
  unfold Stl10.cut_out_center, Stl10.window, Stl10.fill_window,
    Stl10.window_shape.
  rewrite Hsh. cbn [nth mbind Res_bind].
  rewrite (clamp_within rows h Hr1 Hr2), (clamp_within cols w Hc1 Hc2).
  eexists. eexists. split; [reflexivity|]. cbn [shape entry].
  repeat split.
Qed.

(** X20.  For a batch of images of shape [(N, C, H, W)] and a window within
    the image, [cut_out_center] returns as [data] a copy of the window, of
    shape [(N, C, r1 - r0, c1 - c0)], and as [cond] the image itself with
    zeros inside the window and its own values everywhere else. *)
Theorem cut_out_center_window (rows cols : nat * nat) (image : Tensor)
    (n c h w : nat) :
  shape image = [n; c; h; w] ->
  rows.1 <= rows.2 -> rows.2 <= h -> cols.1 <= cols.2 -> cols.2 <= w ->
  exists data cond,
    Stl10.cut_out_center rows cols image = Ok (data, cond)
    /\ shape data = [n; c; rows.2 - rows.1; cols.2 - cols.1]
    /\ shape cond = [n; c; h; w]
    /\ (forall a b i j,
          entry data [a; b; i; j] = entry image [a; b; rows.1 + i; cols.1 + j])
    /\ (forall a b i j,
          entry cond [a; b; i; j]
          = if Stl10.in_window rows cols i j then 0%R
            else entry image [a; b; i; j]).
Proof.
  intros Hsh Hr1 Hr2 Hc1 Hc2.
  exact (cut_out_center_Ok rows cols image n c h w Hsh Hr1 Hr2 Hc1 Hc2).
Qed.

(** X21.  Cutting the centre out and inserting it again restores the image:
    for a batch of images of shape [(N, C, H, W)], a window within the image
    and [center_cutout] equal to the channel count and the window's height
    and width, none of them zero, [insert_center] applied to the [data] and
    the [cond] that [cut_out_center] returned succeeds and gives a tensor of
    the image's shape with the image's value at every position. *)
Theorem insert_center_restores (rows cols : nat * nat) (image : Tensor)
    (n c h w : nat) :
  shape image = [n; c; h; w] ->
  rows.1 < rows.2 -> rows.2 <= h -> cols.1 < cols.2 -> cols.2 <= w ->
  (0 < c)%nat ->
  exists data cond restored,
    Stl10.cut_out_center rows cols image = Ok (data, cond)
    /\ Stl10.insert_center [c; rows.2 - rows.1; cols.2 - cols.1] rows cols
         data cond = Ok restored
    /\ shape restored = [n; c; h; w]
    /\ forall a b i j,
         a < n -> b < c -> i < h -> j < w ->
         entry restored [a; b; i; j] = entry image [a; b; i; j].
Proof.
  intros Hsh Hr1 Hr2 Hc1 Hc2 Hc.
  destruct (cut_out_center_Ok rows cols image n c h w Hsh)
    as (data & cond & Hcut & Hsd & Hsc & Hdata & Hcond); try lia.
  set (hh := rows.2 - rows.1) in *. set (ww := cols.2 - cols.1) in *.
  assert (Hp : prod_dims [c; hh; ww] <> 0) by (simpl; nia).
  exists data, cond.
  unfold Stl10.insert_center, Stl10.view_infer.
  destruct (Nat.eqb_spec (prod_dims [c; hh; ww]) 0) as [E | _];
    [contradiction|].
  assert (Hnumel : numel data = n * prod_dims [c; hh; ww])
    by (unfold numel; rewrite Hsd; reflexivity).
  rewrite Hnumel, Nat.Div0.mod_mul, Nat.eqb_refl, Nat.div_mul by exact Hp.
  unfold view. rewrite Hnumel.
  change (prod_dims (n :: [c; hh; ww])) with (n * prod_dims [c; hh; ww]).
  rewrite Nat.eqb_refl. cbn [mbind Res_bind].
  unfold Stl10.set_window, Stl10.window_shape. rewrite Hsc.
  cbn [nth mbind Res_bind shape].
  rewrite (clamp_within rows h), (clamp_within cols w) by lia.
  fold hh ww. rewrite broadcasts_refl.
  eexists. split; [exact Hcut|]. split; [reflexivity|]. cbn [shape entry dim].
  split; [reflexivity|].
  intros a b i j Ha Hb Hi Hj. cbn [length Nat.sub drop].
  rewrite (Hcond a b i j).
  destruct (Stl10.in_window rows cols i j) eqn:Ew; [|reflexivity].
  unfold Stl10.in_window in Ew.
  apply andb_prop in Ew. destruct Ew as [Ew Ej2].
  apply andb_prop in Ew. destruct Ew as [Ew Ej1].
  apply andb_prop in Ew. destruct Ew as [Ei1 Ei2].
  apply Nat.leb_le in Ei1, Ej1. apply Nat.ltb_lt in Ei2, Ej2.
  assert (Hin : Forall2 lt [a; b; i - rows.1; j - cols.1] [n; c; hh; ww]).
  { subst hh ww. repeat constructor; lia. }
  unfold dim. cbn [shape length Nat.sub drop].
  rewrite (broadcast_index_in_range _ _ Hin), Hsd.
  inversion Hin as [|? ? ? ? _ Htail]; subst.
  rewrite (unravel_ravel _ _ Htail), Hdata.
  f_equal. f_equal. f_equal. f_equal; [lia | f_equal; lia].
Qed.

(** The script's window, rows and columns 32 to 64 of images of 96 by 96
    pixels in three channels. *)
Lemma insert_center_restores_witness :
  shape (ones [2; 3; 96; 96]%nat) = [2; 3; 96; 96]%nat
  /\ Stl10.cutout_rows = (32, 64)%nat /\ Stl10.cutout_cols = (32, 64)%nat
  /\ exists data cond restored,
       Stl10.cut_out_center Stl10.cutout_rows Stl10.cutout_cols
         (ones [2; 3; 96; 96]%nat) = Ok (data, cond)
       /\ shape data = [2; 3; 32; 32]%nat
       /\ Stl10.insert_center Stl10.center_cutout Stl10.cutout_rows
            Stl10.cutout_cols data cond = Ok restored
       /\ shape restored = [2; 3; 96; 96]%nat.
Proof.
  split; [reflexivity|]. split; [reflexivity|]. split; [reflexivity|].
  destruct (insert_center_restores Stl10.cutout_rows Stl10.cutout_cols
              (ones [2; 3; 96; 96]%nat) 2 3 96 96 eq_refl)
    as (data & cond & restored & Hcut & Hins & Hsh & _);
    try (vm_compute; lia).
  exists data, cond, restored. split; [exact Hcut|]. split.
  - unfold Stl10.cut_out_center, Stl10.window in Hcut. simpl in Hcut.
    apply Ok_inj in Hcut. injection Hcut as <- _. reflexivity.
  - split; [exact Hins | exact Hsh].
Defined.

Lemma cut_out_center_window_witness :
  shape (ones [2; 3; 96; 96]%nat) = [2; 3; 96; 96]%nat
  /\ exists data cond,
       Stl10.cut_out_center Stl10.cutout_rows Stl10.cutout_cols
         (ones [2; 3; 96; 96]%nat) = Ok (data, cond)
       /\ entry cond [0; 0; 40; 40]%nat = 0%R
       /\ entry cond [0; 0; 10; 40]%nat = 1%R.
Proof.
  split; [reflexivity|].
  destruct (cut_out_center_window Stl10.cutout_rows Stl10.cutout_cols
              (ones [2; 3; 96; 96]%nat) 2 3 96 96 eq_refl)
    as (data & cond & Hcut & _ & _ & _ & Hcond); try (vm_compute; lia).
  exists data, cond. split; [exact Hcut|].
  split; rewrite Hcond; reflexivity.
Defined.

(** ** The injected weights as functions of the head outputs (X22, X23) *)

Lemma Rsum_exp_ge (n : nat) (x : nat -> R) (c : nat) :
  c < n -> (exp (x c) <= Rsum n (fun j => exp (x j)))%R.
Proof.
  induction n as [|n IH]; intros Hc; [lia|]. simpl.
  destruct (Nat.eq_dec c n) as [-> | Hne].
  - assert (0 <= Rsum n (fun j => exp (x j)))%R.
    { clear. induction n as [|n IH]; simpl; [lra|].
      pose proof (exp_pos (x n)). lra. }
    lra.
  - pose proof (exp_pos (x n)). assert (c < n) by lia.
    specialize (IH H0). lra.
Qed.

Lemma log_softmax_entry_nonpos (n : nat) (x : nat -> R) (c : nat) :
  c < n -> (x c - ln (Rsum n (fun j => exp (x j))) <= 0)%R.
Proof.
  intros Hc. pose proof (Rsum_exp_ge n x c Hc) as Hge.
  pose proof (exp_pos (x c)) as Hpos.
  assert (ln (exp (x c)) <= ln (Rsum n (fun j => exp (x j))))%R.
  { destruct Hge as [Hlt | Heq].
    - left. apply ln_increasing; assumption.
    - right. rewrite <- Heq. reflexivity. }
  rewrite ln_exp in H. lra.
Qed.

(** The position of a weight in the head's output row. *)
Lemma view_weight_entry (out raw : Tensor) (N : nat) (s : Sum) (n f c o r : nat) :
  shape out = [N; in_features s * in_channels s * out_channels s
                  * num_repetitions s] ->
  view out (weight_shape N s) = Ok raw ->
  f < in_features s -> c < in_channels s -> o < out_channels s ->
  r < num_repetitions s ->
  entry raw [n; f; c; o; r] = entry out [n; weight_column s f c o r].
Proof.
  intros Hout Hv Hf Hc Ho Hr. unfold view in Hv.
  destruct (numel out =? prod_dims (weight_shape N s)); [|discriminate].
  apply Ok_inj in Hv. subst raw. cbn [entry]. rewrite Hout. f_equal.
  set (K := in_features s * in_channels s * out_channels s * num_repetitions s).
  assert (Hcol : weight_column s f c o r < K).
  { unfold weight_column. subst K.
    assert (A : f * in_channels s + c + 1 <= in_features s * in_channels s)
      by nia.
    assert (B : (f * in_channels s + c) * out_channels s + o + 1
                <= in_features s * in_channels s * out_channels s) by nia.
    nia. }
  assert (Hrav : ravel (weight_shape N s) [n; f; c; o; r]
                 = n * K + weight_column s f c o r).
  { unfold weight_shape, weight_column. subst K. simpl. ring. }
  rewrite Hrav.
  change (unravel [N; K] (n * K + weight_column s f c o r))
    with [(n * K + weight_column s f c o r) / (K * 1);
          ((n * K + weight_column s f c o r) mod (K * 1)) / 1].
  rewrite Nat.mul_1_r, Nat.div_1_r.
  rewrite Nat.div_add_l by lia. rewrite (Nat.div_small _ _ Hcol), Nat.add_0_r.
  rewrite Nat.add_comm, Nat.Div0.mod_add, (Nat.mod_small _ _ Hcol).
  reflexivity.
Qed.

Lemma log_softmax_weight_entry (raw w : Tensor) (N : nat) (s : Sum)
    (n f c o r : nat) :
  shape raw = weight_shape N s ->
  log_softmax raw 2 = Ok w ->
  entry w [n; f; c; o; r]
  = (entry raw [n; f; c; o; r]
     - ln (Rsum (in_channels s) (fun j => exp (entry raw [n; f; j; o; r]))))%R.
Proof.
  intros Hsh Hw. unfold log_softmax in Hw. rewrite Hsh in Hw. simpl in Hw.
  apply Ok_inj in Hw. subst w. reflexivity.
Qed.

(** X22.  Every weight that [set_params] injects is a log-probability: the
    weights of the [Sum] inner layers and of the root are not positive at
    any input channel of their layer, and neither is any value of the
    sampling root's tensor. *)
Theorem set_params_weights_nonpositive (self self' : CSPN) (x : Tensor) :
  set_params self x = Ok self' ->
  (forall s : Sum,
     s ∈ sums (inner_layers self') \/ s = root self' ->
     forall n f c o r,
       c < in_channels s -> (entry (weight_param s) [n; f; c; o; r] <= 0)%R)
  /\ forall idx, (entry (weight_param (sampling_root self')) idx <= 0)%R.
Proof.
  intros H.
  destruct (set_params_Ok _ _ _ H)
    as (N & feats & pre & layers & i & head & wroot & cc & dpre & mout & m
        & sout & s0 & HN & _ & _ & Hloop & _ & Hroot & _ & _ & _ & _ & _ & _
        & Hself).
  split.
  - assert (Hone : forall h s w n f c o r,
              normalized_weights h pre N s = Ok w -> c < in_channels s ->
              (entry w [n; f; c; o; r] <= 0)%R).
    { intros h s w n f c o r Hw Hc.
      destruct (normalized_weights_Ok _ _ _ _ _ Hw)
        as (_ & (out & raw & _ & Hv & Hl) & _).
      rewrite (log_softmax_weight_entry raw w N s n f c o r
                 (view_shape _ _ _ Hv) Hl).
      apply (log_softmax_entry_nonpos (in_channels s)
               (fun j => entry raw [n; f; j; o; r]) c Hc). }
    destruct (set_inner_weights_Ok _ _ _ _ _ _ _ Hloop) as (_ & _ & Hall).
    subst self'. simpl. intros s [Hin | ->] n f c o r Hc.
    + apply list_elem_of_lookup in Hin. destruct Hin as [k Hk].
      destruct (Hall k s Hk) as (s1 & h & w & _ & _ & Hw & ->).
      exact (Hone h s1 w n f c o r Hw Hc).
    + exact (Hone head (root self) wroot n f c o r Hroot Hc).
  - intros idx. destruct (sampling_root_Ok _ _ _ _ H HN) as [HC Hw].
    rewrite Hw. simpl. rewrite Rmult_1_l.
    assert (HCR : (1 <= INR (CspnConfig.C (config self)))%R).
    { change 1%R with (INR 1). apply le_INR. lia. }
    assert (Hle : (1 / INR (CspnConfig.C (config self)) <= 1)%R).
    { apply Rmult_le_reg_r with (r := INR (CspnConfig.C (config self)));
        [lra|]. field_simplify; lra. }
    assert (Hpos : (0 < 1 / INR (CspnConfig.C (config self)))%R).
    { apply Rdiv_lt_0_compat; lra. }
    destruct Hle as [Hlt | Heq].
    + pose proof (ln_increasing _ _ Hpos Hlt) as Hln. rewrite ln_1 in Hln.
      lra.
    + rewrite Heq, ln_1. lra.
Qed.

Lemma set_params_weights_nonpositive_witness :
  set_params (Example.cspn 2) Example.condition = Ok (Example.injected 2)
  /\ (entry (weight_param (root (Example.injected 2))) [0; 0; 1; 0; 0]%nat
      <= 0)%R.
Proof.
  split; [reflexivity|].
  apply (proj1 (set_params_weights_nonpositive (Example.cspn 2)
                  (Example.injected 2) Example.condition eq_refl)).
  - right. reflexivity.
  - simpl. lia.
Defined.

Lemma sequential_2d (ms : list NNModule) :
  forall (x y : Tensor) (N d : nat),
    shape x = [N; d] -> sequential ms x = Ok y -> exists w, shape y = [N; w].
Proof.
  induction ms as [|m ms IH]; intros x y N d Hx H; simpl in H.
  - apply Ok_inj in H. subst y. eauto.
  - bind_inv H. destruct m as [|l|f]; simpl in Ha.
    + apply Ok_inj in Ha. subst a. exact (IH _ _ _ _ Hx H).
    + unfold linear_forward in Ha. rewrite Hx in Ha. simpl in Ha.
      destruct (d =? in_f l); [|discriminate]. apply Ok_inj in Ha.
      subst a. eapply IH; [|exact H]. reflexivity.
    + apply Ok_inj in Ha. subst a. eapply IH; [|exact H]. exact Hx.
Qed.

(** X23.  The injected sum weights, written out.  For a batch of shape
    [(N, d)], let [pre] be the output of the sum pipeline on the flattened
    features.  The [k]-th [Sum] inner layer reads the [k]-th head, and the
    root the head after the last of them; for weight set [n], feature [f],
    input channel [c], output channel [o] and repetition [r] within the
    layer's sizes, the injected weight is the head's output in row [n] at the
    row-major column of [(f, c, o, r)], minus the logarithm of the sum, over
    the input channels [j], of the exponentials of the head's outputs at the
    columns of [(f, j, o, r)]. *)
Theorem set_params_weight_layout (self self' : CSPN) (x : Tensor) (N d : nat) :
  set_params self x = Ok self' ->
  shape x = [N; d] ->
  exists pre,
    ((sequential (feat_layers self) x ≫= flatten1)
       ≫= sequential (sum_layers self)) = Ok pre
    /\ forall (k : nat) (s : Sum),
         sums (inner_layers self') !! k = Some s
         \/ (k = length (sums (inner_layers self)) /\ s = root self') ->
         exists head out,
           sum_param_heads self !! k = Some head
           /\ linear_forward head pre = Ok out
           /\ forall n f c o r,
                n < N -> f < in_features s -> c < in_channels s ->
                o < out_channels s -> r < num_repetitions s ->
                entry (weight_param s) [n; f; c; o; r]
                = (entry out [n; weight_column s f c o r]
                   - ln (Rsum (in_channels s)
                           (fun j => exp (entry out [n; weight_column s f j o r]))))%R.
Proof.
  intros H Hx.
  destruct (set_params_Ok _ _ _ H)
    as (N' & feats & pre & layers & i & head & wroot & cc & dpre & mout & m
        & sout & s0 & HN & Hf & Hpre & Hloop & Hhead & Hroot & _ & _ & _ & _
        & _ & _ & Hself).
  rewrite Hx in HN. simpl in HN. injection HN as <-.
  exists pre. split; [rewrite Hf; exact Hpre|].
  (* the shape of [pre] *)
  assert (Hspre : exists w, shape pre = [N; w]).
  { destruct (sequential (feat_layers self) x) as [f0|] eqn:Ef0;
      [|discriminate Hf]. cbn [mbind Res_bind] in Hf.
    destruct (sequential_2d _ _ _ _ _ Hx Ef0) as (w0 & Hw0).
    destruct (flatten1_2d f0 N w0 Hw0) as (f1 & Hf1 & Hsf1).
    rewrite Hf1 in Hf. apply Ok_inj in Hf. subst f1.
    exact (sequential_2d _ _ _ _ _ Hsf1 Hpre). }
  destruct Hspre as (wp & Hspre).
  assert (Hone : forall h s w,
            normalized_weights h pre N s = Ok w ->
            exists out,
              linear_forward h pre = Ok out
              /\ forall n f c o r,
                   n < N -> f < in_features s -> c < in_channels s ->
                   o < out_channels s -> r < num_repetitions s ->
                   entry w [n; f; c; o; r]
                   = (entry out [n; weight_column s f c o r]
                      - ln (Rsum (in_channels s)
                              (fun j =>
                                 exp (entry out [n; weight_column s f j o r]))))%R).
  { intros h s w Hw.
    destruct (normalized_weights_Ok _ _ _ _ _ Hw)
      as (_ & (out & raw & Ho & Hv & Hl) & _).
    exists out. split; [exact Ho|].
    intros n f c o r Hn Hf' Hc Ho' Hr.
    assert (Hsout : shape out = [N; out_f h]).
    { unfold linear_forward in Ho. rewrite Hspre in Ho. simpl in Ho.
      destruct (wp =? in_f h); [|discriminate]. apply Ok_inj in Ho.
      subst out. reflexivity. }
    assert (HK : out_f h = in_features s * in_channels s * out_channels s
                           * num_repetitions s).
    { pose proof Hv as Hv'. unfold view in Hv'.
      destruct (Nat.eqb_spec (numel out) (prod_dims (weight_shape N s)))
        as [E | _]; [|discriminate].
      unfold numel in E. rewrite Hsout in E. unfold weight_shape in E.
      simpl in E. nia. }
    rewrite HK in Hsout.
    rewrite (log_softmax_weight_entry raw w N s n f c o r
               (view_shape _ _ _ Hv) Hl).
    rewrite (view_weight_entry out raw N s n f c o r Hsout Hv Hf' Hc Ho' Hr).
    f_equal. f_equal. apply Rsum_ext. intros j Hj.
    rewrite (view_weight_entry out raw N s n f j o r Hsout Hv Hf' Hj Ho' Hr).
    reflexivity. }
  destruct (set_inner_weights_Ok _ _ _ _ _ _ _ Hloop) as (Hi & _ & Hall).
  subst self'. simpl.
  intros k s [Hk | [-> ->]].
  - destruct (Hall k s Hk) as (s1 & h & w & _ & Hh & Hw & ->).
    destruct (Hone h s1 w Hw) as (out & Ho & Hent).
    exists h, out. split; [exact Hh|]. split; [exact Ho | exact Hent].
  - destruct (Hone head (root self) wroot Hroot) as (out & Ho & Hent).
    exists head, out. rewrite Hi in Hhead. simpl in Hhead.
    split; [exact Hhead|]. split; [exact Ho | exact Hent].
Qed.

Lemma set_params_weight_layout_witness :
  set_params (Example.cspn 2) Example.condition = Ok (Example.injected 2)
  /\ shape Example.condition = [2; 3]%nat
  /\ exists pre,
       ((sequential (feat_layers (Example.cspn 2)) Example.condition
           ≫= flatten1) ≫= sequential (sum_layers (Example.cspn 2))) = Ok pre.
Proof.
  split; [reflexivity|]. split; [reflexivity|].
  destruct (set_params_weight_layout (Example.cspn 2) (Example.injected 2)
              Example.condition 2 3 eq_refl eq_refl) as (pre & Hpre & _).
  exists pre. exact Hpre.
Defined.
